(** * importYAMLJSONMesh: FEM mesh <-> dictionary conversion

    A shallow embedding of [src/Mod/Fem/feminout/importYAMLJSONMesh.py]:
    the mesh-to-dictionary converter [convert_femmesh_to_dict], the key
    normalizer [convert_raw_data_to_mesh_data], and the two entry points
    [export] and [import_yaml_json_mesh], followed by the properties of
    the specification that were checked against them.

    Python values are modelled as follows.
    - A [dict] is an association list in insertion order with pairwise
      distinct keys (module [Dict]).  Insertion order is kept because the
      normalizer re-keys a bucket through [int(k)], and when two keys of
      the input denote the same integer the entry visited last wins.
    - A [str] is the [string] of its UTF-8 bytes; [int()] reads the
      characters through [code_points].
    - Exceptions are the [Raise] results of a small error monad.
    - [FreeCAD.Console], the file system and the active document are the
      fields of an explicit [World] threaded through the entry points. *)

From Stdlib Require Import ZArith List String Ascii Bool Lia.
From Stdlib Require Import Floats.PrimFloat.
Import ListNotations.

Set Implicit Arguments.
Set Warnings "-register-all".

(* ================================================================= *)
(** ** Exceptions and results *)

Inductive exn : Type :=
| KeyError (key : nat)            (* subscript of a dict by a missing key *)
| ValueError (literal : string)   (* [int()] of a literal that is no integer *)
| IOError (path : string)         (* a file that cannot be opened *)
| IndexError                      (* subscript of a list out of range *)
| AttributeError (name : string). (* an attribute the object does not have *)

Inductive result (A : Type) : Type :=
| Ok (a : A)
| Raise (e : exn).

Arguments Ok {A} a.
Arguments Raise {A} e.

Definition bind {A B : Type} (c : result A) (k : A -> result B) : result B :=
  match c with
  | Ok a => k a
  | Raise e => Raise e
  end.

Declare Scope py_scope.
Delimit Scope py_scope with py.
Notation "'let*' x ':=' c 'in' k" := (bind c (fun x => k))
  (at level 10, x name, c at level 100, k at level 200) : py_scope.

(* ================================================================= *)
(** ** Dictionaries *)

(** Keys of a Python dict are compared with [==]; the model asks for a
    boolean equality that decides Leibniz equality. *)
Class Hashable (K : Type) : Type := {
  key_eqb : K -> K -> bool;
  key_eqb_spec : forall a b : K, reflect (a = b) (key_eqb a b)
}.

#[export] Instance Hashable_nat : Hashable nat :=
  {| key_eqb := Nat.eqb; key_eqb_spec := Nat.eqb_spec |}.

#[export] Instance Hashable_Z : Hashable Z :=
  {| key_eqb := Z.eqb; key_eqb_spec := Z.eqb_spec |}.

#[export] Instance Hashable_string : Hashable string :=
  {| key_eqb := String.eqb; key_eqb_spec := String.eqb_spec |}.

Module Dict.
Section Ops.
Context {K : Type} `{Hashable K} {V : Type}.

(** The entries, oldest insertion first. *)
Definition t : Type := list (K * V).

Definition empty : t := [].

(** [d.items()] *)
Definition items (d : t) : list (K * V) := d.

(** [d.keys()] *)
Definition keys (d : t) : list K := map fst d.

(** [d.get(k)] *)
Fixpoint get (k : K) (d : t) : option V :=
  match d with
  | [] => None
  | (k', v) :: rest => if key_eqb k k' then Some v else get k rest
  end.

(** [d[k] = v]: an existing entry keeps its place and takes the new
    value, a new key goes last. *)
Fixpoint set (k : K) (v : V) (d : t) : t :=
  match d with
  | [] => [(k, v)]
  | (k', v') :: rest =>
      if key_eqb k k' then (k', v) :: rest else (k', v') :: set k v rest
  end.

(** [dict(pairs)], also the meaning of a display [{k1: v1, ...}]. *)
Definition of_items (pairs : list (K * V)) : t :=
  fold_left (fun d kv => set (fst kv) (snd kv) d) pairs empty.

(** The invariant of every dict: no key occurs twice. *)
Definition wf (d : t) : Prop := NoDup (keys d).
End Ops.
Arguments t : clear implicits.
End Dict.

(* ================================================================= *)
(** ** Python built-ins on strings and integers *)

Definition chars (s : string) : list ascii := list_ascii_of_string s.

Definition code (c : ascii) : Z := Z.of_N (N_of_ascii c).

(** [str.lower()] on ASCII text. *)
Definition lower_char (c : ascii) : ascii :=
  if ((65 <=? code c) && (code c <=? 90))%Z
  then ascii_of_N (Z.to_N (code c + 32))
  else c.

Fixpoint lower (s : string) : string :=
  match s with
  | EmptyString => EmptyString
  | String c rest => String (lower_char c) (lower rest)
  end.

(** White space as [int()] skips it at both ends of an ASCII literal
    (C's [Py_ISSPACE]): tab to carriage return, and the blank.  The
    separators 28..31 are white space for [str.isspace] but not here. *)
Definition is_space (c : ascii) : bool :=
  (((9 <=? code c) && (code c <=? 13)) || (code c =? 32))%Z.

Fixpoint lstrip (s : list ascii) : list ascii :=
  match s with
  | c :: rest => if is_space c then lstrip rest else s
  | [] => []
  end.

Definition strip (s : list ascii) : list ascii :=
  rev (lstrip (rev (lstrip s))).

Definition digit_of (c : ascii) : option Z :=
  if ((48 <=? code c) && (code c <=? 57))%Z then Some (code c - 48)%Z else None.

Definition digit_char (d : Z) : ascii := ascii_of_N (Z.to_N (d + 48)).

(** The digits of a decimal literal, most significant first; single
    underscores may separate digits.  [after_digit] tells whether the
    previous character was a digit. *)
Fixpoint parse_digits (acc : Z) (after_digit : bool) (s : list ascii) : option Z :=
  match s with
  | [] => if after_digit then Some acc else None
  | c :: rest =>
      if Ascii.eqb c "_"
      then if after_digit then parse_digits acc false rest else None
      else match digit_of c with
           | Some d => parse_digits (10 * acc + d) true rest
           | None => None
           end
  end.

(** Text that is not ASCII.  A [string] holds the UTF-8 bytes of a
    Python [str]; [code_points] gives its characters.  A byte that does
    not begin a well-formed sequence (too short, overlong, a surrogate,
    beyond U+10FFFF) stands for the character of its own number, so
    every [string] is the text of some [str]. *)
Definition continuation (b : ascii) : option Z :=
  if ((128 <=? code b) && (code b <=? 191))%Z then Some (code b - 128)%Z else None.

Definition two_bytes (b0 b1 : ascii) : option Z :=
  match continuation b1 with
  | Some c1 =>
      if ((194 <=? code b0) && (code b0 <=? 223))%Z
      then Some ((code b0 - 192) * 64 + c1)%Z
      else None
  | None => None
  end.

Definition three_bytes (b0 b1 b2 : ascii) : option Z :=
  match continuation b1, continuation b2 with
  | Some c1, Some c2 =>
      let cp := ((code b0 - 224) * 4096 + c1 * 64 + c2)%Z in
      if ((224 <=? code b0) && (code b0 <=? 239) && (2048 <=? cp)
          && negb ((55296 <=? cp) && (cp <=? 57343)))%Z
      then Some cp
      else None
  | _, _ => None
  end.

Definition four_bytes (b0 b1 b2 b3 : ascii) : option Z :=
  match continuation b1, continuation b2, continuation b3 with
  | Some c1, Some c2, Some c3 =>
      let cp := ((code b0 - 240) * 262144 + c1 * 4096 + c2 * 64 + c3)%Z in
      if ((240 <=? code b0) && (code b0 <=? 244) && (65536 <=? cp)
          && (cp <=? 1114111))%Z
      then Some cp
      else None
  | _, _, _ => None
  end.

Fixpoint code_points (s : list ascii) : list Z :=
  match s with
  | [] => []
  | b0 :: rest =>
      match rest with
      | b1 :: rest1 =>
          match two_bytes b0 b1 with
          | Some cp => cp :: code_points rest1
          | None =>
              match rest1 with
              | b2 :: rest2 =>
                  match three_bytes b0 b1 b2 with
                  | Some cp => cp :: code_points rest2
                  | None =>
                      match rest2 with
                      | b3 :: rest3 =>
                          match four_bytes b0 b1 b2 b3 with
                          | Some cp => cp :: code_points rest3
                          | None => code b0 :: code_points rest
                          end
                      | [] => code b0 :: code_points rest
                      end
                  end
              | [] => code b0 :: code_points rest
              end
          end
      | [] => [code b0]
      end
  end.

(** The characters above ASCII that [int()] takes for white space
    ([Py_UNICODE_ISSPACE]). *)
Definition unicode_spaces : list Z :=
  [133; 160; 5760; 8192; 8193; 8194; 8195; 8196; 8197; 8198; 8199; 8200;
   8201; 8202; 8232; 8233; 8239; 8287; 12288]%Z.

(** The digit zero of every script above ASCII that has decimal digits
    (Unicode 14.0, the data of CPython 3.11); the nine characters after
    a zero are the digits one to nine of the script. *)
Definition decimal_zeros : list Z :=
  [1632; 1776; 1984; 2406; 2534; 2662; 2790; 2918; 3046; 3174; 3302; 3430;
   3558; 3664; 3792; 3872; 4160; 4240; 6112; 6160; 6470; 6608; 6784; 6800;
   6992; 7088; 7232; 7248; 42528; 43216; 43264; 43472; 43504; 43600; 44016;
   65296; 66720; 68912; 69734; 69872; 69942; 70096; 70384; 70736; 70864;
   71248; 71360; 71472; 71904; 72016; 72784; 73040; 73120; 92768; 92864;
   93008; 120782; 120792; 120802; 120812; 120822; 123200; 123632; 125264;
   130032]%Z.

(** [Py_UNICODE_TODECIMAL] above ASCII. *)
Definition unicode_decimal (cp : Z) : option Z :=
  match find (fun zero => ((zero <=? cp) && (cp <=? zero + 9))%Z) decimal_zeros with
  | Some zero => Some (cp - zero)%Z
  | None => None
  end.

(** The loop of [_PyUnicode_TransformDecimalAndSpaceToASCII]: a
    character below 127 is kept, white space becomes a blank, a decimal
    digit its ASCII digit; at any other character the text ends with a
    question mark. *)
Fixpoint to_ascii (cps : list Z) : list ascii :=
  match cps with
  | [] => []
  | cp :: rest =>
      if (cp <? 127)%Z then ascii_of_N (Z.to_N cp) :: to_ascii rest
      else if existsb (Z.eqb cp) unicode_spaces then " "%char :: to_ascii rest
      else match unicode_decimal cp with
           | Some d => digit_char d :: to_ascii rest
           | None => ["?"%char]
           end
  end.

(** The literal [int()] parses: the text itself when it is ASCII, else
    its transform. *)
Definition ascii_literal (s : list ascii) : list ascii :=
  if forallb (fun c => (code c <? 128)%Z) s then s else to_ascii (code_points s).

(** [int(s)] for a [str], as Python 3 reads it: the text is brought to
    ASCII, then surrounding white space, an optional sign and decimal
    digits are read.  A literal that is not of this form raises
    [ValueError].  (The limit on the number of digits that CPython 3.11
    and later apply unless it is switched off is not modelled.) *)
Definition int_of_str (s : string) : result Z :=
  let body := strip (ascii_literal (chars s)) in
  let parsed :=
    match body with
    | "+"%char :: rest => parse_digits 0 false rest
    | "-"%char :: rest => option_map Z.opp (parse_digits 0 false rest)
    | _ => parse_digits 0 false body
    end in
  match parsed with
  | Some z => Ok z
  | None => Raise (ValueError s)
  end.

(** The decimal digits of [n >= 0] pushed in front of [acc]; the fuel
    bounds the number of digits. *)
Fixpoint digits_fuel (fuel : nat) (n : Z) (acc : list ascii) : list ascii :=
  match fuel with
  | O => acc
  | S fuel' =>
      let acc' := digit_char (n mod 10) :: acc in
      if (n <? 10)%Z then acc' else digits_fuel fuel' (n / 10) acc'
  end.

Definition digits (n : Z) : list ascii :=
  digits_fuel (S (Z.to_nat (Z.log2 n))) n [].

(** [str(z)] for an [int]. *)
Definition str_of_int (z : Z) : string :=
  string_of_list_ascii
    (if (z <? 0)%Z then "-"%char :: digits (- z) else digits z).

(** A dict key as the text codecs know it: an [int] on the mesh side, a
    [str] after deserialization. *)
Inductive key : Type :=
| KInt (z : Z)
| KStr (s : string).

Definition key_eq (a b : key) : bool :=
  match a, b with
  | KInt x, KInt y => Z.eqb x y
  | KStr x, KStr y => String.eqb x y
  | _, _ => false
  end.

Lemma key_eq_spec (a b : key) : reflect (a = b) (key_eq a b).
Proof.
  destruct a as [x|x], b as [y|y]; simpl; try (constructor; discriminate).
  - destruct (Z.eqb_spec x y); constructor; congruence.
  - destruct (String.eqb_spec x y); constructor; congruence.
Qed.

#[export] Instance Hashable_key : Hashable key :=
  {| key_eqb := key_eq; key_eqb_spec := key_eq_spec |}.

(** [int(k)] *)
Definition py_int (k : key) : result Z :=
  match k with
  | KInt z => Ok z
  | KStr s => int_of_str s
  end.

(** [str(k)], the rendering of a key by a text codec. *)
Definition py_str (k : key) : string :=
  match k with
  | KInt z => str_of_int z
  | KStr s => s
  end.

(* ================================================================= *)
(** ** [os.path] (POSIX flavour) *)

Fixpoint rfind_from (c : ascii) (p : list ascii) (i last : Z) : Z :=
  match p with
  | [] => last
  | a :: rest => rfind_from c rest (i + 1) (if Ascii.eqb a c then i else last)
  end.

(** [p.rfind(c)]: the index of the last [c] in [p], or [-1]. *)
Definition rfind (c : ascii) (p : list ascii) : Z := rfind_from c p 0 (-1).

(** [p[i:j]] for [0 <= i]. *)
Definition slice (i j : Z) (p : list ascii) : list ascii :=
  firstn (Z.to_nat (j - i)) (skipn (Z.to_nat i) p).

Definition slice_to (j : Z) (p : list ascii) : list ascii := firstn (Z.to_nat j) p.
Definition slice_from (i : Z) (p : list ascii) : list ascii := skipn (Z.to_nat i) p.

Definition is_dot (c : ascii) : bool := Ascii.eqb c ".".
Definition is_sep (c : ascii) : bool := Ascii.eqb c "/".

(** [os.path.splitext(p)]: the extension starts at the last dot of the
    last path component, unless only dots precede it there. *)
Definition splitext (path : string) : string * string :=
  let p := chars path in
  let sepIndex := rfind "/" p in
  let dotIndex := rfind "." p in
  if (sepIndex <? dotIndex)%Z
     && existsb (fun c => negb (is_dot c)) (slice (sepIndex + 1) dotIndex p)
  then (string_of_list_ascii (slice_to dotIndex p),
        string_of_list_ascii (slice_from dotIndex p))
  else (path, EmptyString).

Fixpoint lstrip_sep (s : list ascii) : list ascii :=
  match s with
  | c :: rest => if is_sep c then lstrip_sep rest else s
  | [] => []
  end.

(** [os.path.split(p)]: the tail is what follows the last slash; the
    head loses its trailing slashes unless it consists of slashes. *)
Definition split (path : string) : string * string :=
  let p := chars path in
  let i := (rfind "/" p + 1)%Z in
  let head := slice_to i p in
  let tail := slice_from i p in
  let head' := if forallb is_sep head then head else rev (lstrip_sep (rev head)) in
  (string_of_list_ascii head', string_of_list_ascii tail).

(* ================================================================= *)
(** ** The mesh and the dictionary made from it *)

Module Vector.
(** [FreeCAD.Vector]: three floating-point coordinates. *)
Record t : Type := mk { x : float; y : float; z : float }.
End Vector.

(** What a bucket holds: numbers, names and sequences of them (a tuple
    on the mesh side; the model does not tell tuples from lists). *)
Inductive value : Type :=
| VInt (z : Z)
| VFloat (f : float)
| VStr (s : string)
| VSeq (elements : list value).

Definition bucket : Type := Dict.t key value.
Definition mesh_dict : Type := Dict.t string bucket.

(** The part of [Fem.FemMesh] the converter reads. *)
Record FemMesh : Type := {
  Edges : list Z;
  Faces : list Z;
  Volumes : list Z;
  getElementNodes : Z -> list Z;
  Nodes : Dict.t Z Vector.t;
  Groups : list Z;
  getGroupName : Z -> string;
  getGroupElements : Z -> list Z
}.

(** The twelve lists the converter fills.  The three [len_to_*] tables
    hold references to them, so an append through a table is an append
    to the list itself: the lists live in one store, named by
    [elem_list]. *)
Inductive elem_list : Type :=
| seg2 | seg3
| tri3 | tri6 | quad4 | quad8
| tet4 | tet10 | hex8 | hex20 | pent6 | pent15.

Scheme Equality for elem_list.

Definition element : Type := (Z * list Z)%type.
Definition store : Type := elem_list -> list element.

Definition empty_store : store := fun _ => [].

(** [l.append(x)] *)
Definition append (l : elem_list) (x : element) (st : store) : store :=
  fun l' => if elem_list_beq l l' then st l' ++ [x] else st l'.

Definition len_to_edge : Dict.t nat elem_list :=
  Dict.of_items [(2, seg2); (3, seg3)].

Definition len_to_face : Dict.t nat elem_list :=
  Dict.of_items [(3, tri3); (6, tri6); (4, quad4); (8, quad8)].

Definition len_to_volume : Dict.t nat elem_list :=
  Dict.of_items [(4, tet4); (10, tet10); (8, hex8); (20, hex20);
                 (6, pent6); (15, pent15)].

(** [table[n]] *)
Definition subscript {V : Type} (table : Dict.t nat V) (n : nat) : result V :=
  match Dict.get n table with
  | Some v => Ok v
  | None => Raise (KeyError n)
  end.

Local Open Scope py_scope.

(** One of the three loops [for e in ...: t = femmesh.getElementNodes(e);
    table[len(t)].append((e, t))]. *)
Fixpoint analyze (table : Dict.t nat elem_list) (femmesh : FemMesh)
                 (elements : list Z) (st : store) : result store :=
  match elements with
  | [] => Ok st
  | e :: rest =>
      let t := getElementNodes femmesh e in
      let* l := subscript table (List.length t) in
      analyze table femmesh rest (append l (e, t) st)
  end.

Definition int_tuple (t : list Z) : value := VSeq (map VInt t).

(** [dict(l)] for one of the twelve lists. *)
Definition elem_dict (l : list element) : bucket :=
  Dict.of_items (map (fun et => (KInt (fst et), int_tuple (snd et))) l).

(** [(v.x, v.y, v.z)] *)
Definition coordinates (v : Vector.t) : value :=
  VSeq [VFloat (Vector.x v); VFloat (Vector.y v); VFloat (Vector.z v)].

(** [dict([(k, (v.x, v.y, v.z)) for (k, v) in femmesh.Nodes.items()])] *)
Definition nodes_dict (femmesh : FemMesh) : bucket :=
  Dict.of_items
    (map (fun kv => (KInt (fst kv), coordinates (snd kv)))
         (Dict.items (Nodes femmesh))).

(** [(femmesh.getGroupName(group_num), femmesh.getGroupElements(group_num))] *)
Definition group_entry (femmesh : FemMesh) (group_num : Z) : value :=
  VSeq [VStr (getGroupName femmesh group_num);
        int_tuple (getGroupElements femmesh group_num)].

Definition groups_dict (femmesh : FemMesh) : bucket :=
  Dict.of_items
    (map (fun group_num => (KInt group_num, group_entry femmesh group_num))
         (Groups femmesh)).

Definition convert_femmesh_to_dict (femmesh : FemMesh) : result mesh_dict :=
  let* st := analyze len_to_edge femmesh (Edges femmesh) empty_store in
  let* st := analyze len_to_face femmesh (Faces femmesh) st in
  let* st := analyze len_to_volume femmesh (Volumes femmesh) st in
  Ok (Dict.of_items
        [("Nodes"%string, nodes_dict femmesh);
         ("Seg2Elem"%string, elem_dict (st seg2));
         ("Seg3Elem"%string, elem_dict (st seg3));
         ("Tria3Elem"%string, elem_dict (st tri3));
         ("Tria6Elem"%string, elem_dict (st tri6));
         ("Quad4Elem"%string, elem_dict (st quad4));
         ("Quad8Elem"%string, elem_dict (st quad8));
         ("Tetra4Elem"%string, elem_dict (st tet4));
         ("Tetra10Elem"%string, elem_dict (st tet10));
         ("Hexa8Elem"%string, elem_dict (st hex8));
         ("Hexa20Elem"%string, elem_dict (st hex20));
         ("Penta6Elem"%string, elem_dict (st pent6));
         ("Penta15Elem"%string, elem_dict (st pent15));
         ("Groups"%string, groups_dict femmesh)]).

(* ================================================================= *)
(** ** The normalizer *)

Section Normalizer.
Context {V : Type}.

(** [[(int(k), v) for (k, v) in type_dict.items()]] *)
Fixpoint int_keyed (entries : list (key * V)) : result (list (key * V)) :=
  match entries with
  | [] => Ok []
  | (k, v) :: rest =>
      let* n := py_int k in
      let* rest' := int_keyed rest in
      Ok ((KInt n, v) :: rest')
  end.

(** The body of [for (type_key, type_dict) in raw_mesh_data.items()],
    with [mesh_data] the dict built so far. *)
Fixpoint normalize_entries (entries : list (string * Dict.t key V))
                           (mesh_data : Dict.t string (Dict.t key V))
  : result (Dict.t string (Dict.t key V)) :=
  match entries with
  | [] => Ok mesh_data
  | (type_key, type_dict) :: rest =>
      if negb (String.eqb (lower type_key) "groups")
      then
        let* pairs := int_keyed (Dict.items type_dict) in
        normalize_entries rest (Dict.set type_key (Dict.of_items pairs) mesh_data)
      else normalize_entries rest mesh_data
  end.

Definition convert_raw_data_to_mesh_data (raw_mesh_data : Dict.t string (Dict.t key V))
  : result (Dict.t string (Dict.t key V)) :=
  normalize_entries (Dict.items raw_mesh_data) Dict.empty.
End Normalizer.

(* ================================================================= *)
(** ** The text codecs *)

Inductive codec : Type := JSON | YAML.

(** Modelled from the spec: the [json] and [yaml] libraries are not part
    of the sources.  The specification takes them as black boxes ("given
    a dictionary, serialize to bytes and back losslessly") in which "all
    element/node/group keys render as JSON strings", with the "same
    key-stringification behavior" for YAML.  A text is represented by
    the mapping it denotes and the codec that wrote it. *)
Record text : Type := { written_by : codec; denotes : mesh_dict }.

(** Modelled from the spec: what a codec makes of a bucket, every key
    rendered as a string and the values kept. *)
Definition stringify_keys (b : bucket) : bucket :=
  Dict.of_items (map (fun kv => (KStr (py_str (fst kv)), snd kv)) (Dict.items b)).

(** Modelled from the spec: [json.dump(mesh_data, fp, indent=4)] and
    [yaml.safe_dump(mesh_data, fp)], up to the mapping the text denotes. *)
Definition dump (c : codec) (mesh_data : mesh_dict) : text :=
  {| written_by := c;
     denotes := map (fun nb => (fst nb, stringify_keys (snd nb))) mesh_data |}.

(** Modelled from the spec: [json.load(fp)] and [yaml.load(fp)]; the
    JSON reader refuses a text written in YAML. *)
Definition load (c : codec) (t : text) : result mesh_dict :=
  match c, written_by t with
  | JSON, YAML => Raise (ValueError "Expecting value")
  | _, _ => Ok (denotes t)
  end.

(* ================================================================= *)
(** ** The host application *)

Inductive message : Type :=
| PrintMessage (s : string)
| PrintError (s : string).

(** An object of the document: one of kind [Fem::FemMeshObject], with its
    [FemMesh] property, or one of another kind. *)
Inductive DocumentObject : Type :=
| FemMeshObject (mesh : FemMesh)
| OtherObject.

Definition isDerivedFrom (obj : DocumentObject) (type : string) : bool :=
  match obj with
  | FemMeshObject _ => String.eqb type "Fem::FemMeshObject"
  | OtherObject => false
  end.

Record World : Type := {
  console : list message;                          (* FreeCAD.Console, oldest first *)
  files : Dict.t string text;                      (* the file system *)
  ActiveDocument : list (string * DocumentObject)  (* the objects of the document *)
}.

(** Computations of the entry points: they change the world and return
    or raise. *)
Definition M (A : Type) : Type := World -> World * result A.

Definition ret {A : Type} (a : A) : M A := fun w => (w, Ok a).

Definition lift {A : Type} (r : result A) : M A := fun w => (w, r).

Definition mbind {A B : Type} (c : M A) (k : A -> M B) : M B :=
  fun w =>
    match c w with
    | (w', Ok a) => k a w'
    | (w', Raise e) => (w', Raise e)
    end.

Notation "'let!' x ':=' c 'in' k" := (mbind c (fun x => k))
  (at level 10, x name, c at level 100, k at level 200) : py_scope.
Notation "c ';;' k" := (mbind c (fun _ => k))
  (at level 100, k at level 200, right associativity) : py_scope.

Definition Console_Print (m : message) : M unit :=
  fun w => ({| console := console w ++ [m];
               files := files w;
               ActiveDocument := ActiveDocument w |}, Ok tt).

(** [fp = pyopen(path, "wt"); <dump>(..., fp); fp.close()] *)
Definition write_file (path : string) (t : text) : M unit :=
  fun w => ({| console := console w;
               files := Dict.set path t (files w);
               ActiveDocument := ActiveDocument w |}, Ok tt).

(** [fp = pyopen(path, "rt")], up to the text read from it. *)
Definition read_file (path : string) : M text :=
  fun w =>
    match Dict.get path (files w) with
    | Some t => (w, Ok t)
    | None => (w, Raise (IOError path))
    end.

(** [mesh_object = FreeCAD.ActiveDocument.addObject('Fem::FemMeshObject',
    name); mesh_object.FemMesh = femmesh] *)
Definition addObject (name : string) (femmesh : FemMesh) : M unit :=
  fun w => ({| console := console w;
               files := files w;
               ActiveDocument := ActiveDocument w ++ [(name, FemMeshObject femmesh)] |},
            Ok tt).

(** [objectslist[i]] *)
Definition subscript_list {A : Type} (l : list A) (i : nat) : M A :=
  lift (match nth_error l i with
        | Some a => Ok a
        | None => Raise IndexError
        end).

(** [obj.FemMesh] *)
Definition get_FemMesh (obj : DocumentObject) : M FemMesh :=
  lift (match obj with
        | FemMeshObject femmesh => Ok femmesh
        | OtherObject => Raise (AttributeError "FemMesh")
        end).

Definition newline : string := String "010" EmptyString.

Section EntryPoints.
(** The module-level flag set when [import yaml] succeeded. *)
Variable has_yaml : bool.

(** Modelled from the spec: [importToolsFem.make_femmesh] is not part of
    the sources; the specification gives only its interface,
    [build_mesh(record) -> mesh_handle_or_empty].  [None] stands for a
    result that tests false. *)
Variable make_femmesh : mesh_dict -> option FemMesh.

Definition is_yaml_extension (fileExtension : string) : bool :=
  String.eqb (lower fileExtension) ".yaml" || String.eqb (lower fileExtension) ".yml".

Definition export (objectslist : list DocumentObject) (fileString : string) : M unit :=
  if negb (Nat.eqb (List.length objectslist) 1)
  then Console_Print (PrintError ("This exporter can only export one object." ++ newline))
  else
    let! obj := subscript_list objectslist 0 in
    if negb (isDerivedFrom obj "Fem::FemMeshObject")
    then Console_Print (PrintError ("No FEM mesh object selected." ++ newline))
    else
      let! femmesh := get_FemMesh obj in
      let! mesh_data := lift (convert_femmesh_to_dict femmesh) in
      if negb (String.eqb fileString "")
      then
        let fileExtension := snd (splitext fileString) in
        if String.eqb (lower fileExtension) ".json"
        then write_file fileString (dump JSON mesh_data)
        else if is_yaml_extension fileExtension && has_yaml
        then write_file fileString (dump YAML mesh_data)
        else ret tt
      else ret tt.

Definition import_yaml_json_mesh (fileString : string) : M unit :=
  let fileName := snd (split fileString) in
  let fileNameNoExt := fst (splitext fileName) in
  let fileExtension := snd (splitext fileName) in
  let! raw_mesh_data :=
    if String.eqb (lower fileExtension) ".json"
    then let! t := read_file fileString in lift (load JSON t)
    else if is_yaml_extension fileExtension && has_yaml
    then let! t := read_file fileString in lift (load YAML t)
    else (Console_Print
            (PrintError ("Unknown extension, please select other importer." ++ newline)) ;;
          ret Dict.empty) in
  (Console_Print (PrintMessage "Converting indices to integer numbers ...") ;;
   let! mesh_data := lift (convert_raw_data_to_mesh_data raw_mesh_data) in
   (Console_Print (PrintMessage ("OK" ++ newline)) ;;
    match make_femmesh mesh_data with
    | Some femmesh => addObject fileNameNoExt femmesh
    | None => ret tt
    end)).
End EntryPoints.

(* ================================================================= *)
(** ** Vocabulary of the specification *)

Inductive category : Type := Edge | Face | Volume.

Definition elements_of (c : category) (femmesh : FemMesh) : list Z :=
  match c with
  | Edge => Edges femmesh
  | Face => Faces femmesh
  | Volume => Volumes femmesh
  end.

(** The table of the converter for a category. *)
Definition table_of (c : category) : Dict.t nat elem_list :=
  match c with
  | Edge => len_to_edge
  | Face => len_to_face
  | Volume => len_to_volume
  end.

(** The key under which the converter files a list in [mesh_data]. *)
Definition bucket_name (l : elem_list) : string :=
  match l with
  | seg2 => "Seg2Elem" | seg3 => "Seg3Elem"
  | tri3 => "Tria3Elem" | tri6 => "Tria6Elem"
  | quad4 => "Quad4Elem" | quad8 => "Quad8Elem"
  | tet4 => "Tetra4Elem" | tet10 => "Tetra10Elem"
  | hex8 => "Hexa8Elem" | hex20 => "Hexa20Elem"
  | pent6 => "Penta6Elem" | pent15 => "Penta15Elem"
  end.

(** The arity table of the specification (section 3): the bucket of an
    element of category [c] with [arity] nodes, if that arity is listed
    for the category. *)
Definition bucket_for (c : category) (arity : nat) : option string :=
  match c, arity with
  | Edge, 2 => Some "Seg2Elem"
  | Edge, 3 => Some "Seg3Elem"
  | Face, 3 => Some "Tria3Elem"
  | Face, 4 => Some "Quad4Elem"
  | Face, 6 => Some "Tria6Elem"
  | Face, 8 => Some "Quad8Elem"
  | Volume, 4 => Some "Tetra4Elem"
  | Volume, 6 => Some "Penta6Elem"
  | Volume, 8 => Some "Hexa8Elem"
  | Volume, 10 => Some "Tetra10Elem"
  | Volume, 15 => Some "Penta15Elem"
  | Volume, 20 => Some "Hexa20Elem"
  | _, _ => None
  end%string.

Definition arity (femmesh : FemMesh) (e : Z) : nat :=
  List.length (getElementNodes femmesh e).


(** The fourteen bucket names, in the order of the converter's display. *)
Definition bucket_names : list string :=
  ["Nodes"; "Seg2Elem"; "Seg3Elem"; "Tria3Elem"; "Tria6Elem"; "Quad4Elem";
   "Quad8Elem"; "Tetra4Elem"; "Tetra10Elem"; "Hexa8Elem"; "Hexa20Elem";
   "Penta6Elem"; "Penta15Elem"; "Groups"]%string.

(** The category and the arity of the elements a list receives. *)
Definition category_of (l : elem_list) : category :=
  match l with
  | seg2 | seg3 => Edge
  | tri3 | tri6 | quad4 | quad8 => Face
  | _ => Volume
  end.

Definition arity_of (l : elem_list) : nat :=
  match l with
  | seg2 => 2 | seg3 => 3
  | tri3 => 3 | tri6 => 6 | quad4 => 4 | quad8 => 8
  | tet4 => 4 | tet10 => 10 | hex8 => 8 | hex20 => 20 | pent6 => 6 | pent15 => 15
  end.

(** The dict the converter returns when its lists are [st]. *)
Definition record_of (femmesh : FemMesh) (st : store) : mesh_dict :=
  [("Nodes", nodes_dict femmesh);
   ("Seg2Elem", elem_dict (st seg2));
   ("Seg3Elem", elem_dict (st seg3));
   ("Tria3Elem", elem_dict (st tri3));
   ("Tria6Elem", elem_dict (st tri6));
   ("Quad4Elem", elem_dict (st quad4));
   ("Quad8Elem", elem_dict (st quad8));
   ("Tetra4Elem", elem_dict (st tet4));
   ("Tetra10Elem", elem_dict (st tet10));
   ("Hexa8Elem", elem_dict (st hex8));
   ("Hexa20Elem", elem_dict (st hex20));
   ("Penta6Elem", elem_dict (st pent6));
   ("Penta15Elem", elem_dict (st pent15));
   ("Groups", groups_dict femmesh)]%string.

(** Scenario A of the specification: one edge, one triangle, one
    tetrahedron over four nodes, and the group "Fixed" holding the edge. *)
Definition scenario_A (edge_id face_id vol_id : Z) : FemMesh :=
  {| Edges := [edge_id];
     Faces := [face_id];
     Volumes := [vol_id];
     getElementNodes := fun e =>
       if (e =? edge_id)%Z then [1; 2]%Z
       else if (e =? face_id)%Z then [1; 2; 3]%Z
       else if (e =? vol_id)%Z then [1; 2; 3; 4]%Z
       else [];
     Nodes := [(1%Z, Vector.mk 0%float 0%float 0%float);
               (2%Z, Vector.mk 1%float 0%float 0%float);
               (3%Z, Vector.mk 0%float 1%float 0%float);
               (4%Z, Vector.mk 0%float 0%float 1%float)];
     Groups := [0%Z];
     getGroupName := fun _ => "Fixed"%string;
     getGroupElements := fun g => if (g =? 0)%Z then [edge_id] else [] |}.

Definition scenario_A_record (edge_id face_id vol_id : Z) : mesh_dict :=
  [("Nodes", [(KInt 1, VSeq [VFloat 0%float; VFloat 0%float; VFloat 0%float]);
              (KInt 2, VSeq [VFloat 1%float; VFloat 0%float; VFloat 0%float]);
              (KInt 3, VSeq [VFloat 0%float; VFloat 1%float; VFloat 0%float]);
              (KInt 4, VSeq [VFloat 0%float; VFloat 0%float; VFloat 1%float])]);
   ("Seg2Elem", [(KInt edge_id, VSeq [VInt 1; VInt 2])]);
   ("Seg3Elem", []);
   ("Tria3Elem", [(KInt face_id, VSeq [VInt 1; VInt 2; VInt 3])]);
   ("Tria6Elem", []);
   ("Quad4Elem", []);
   ("Quad8Elem", []);
   ("Tetra4Elem", [(KInt vol_id, VSeq [VInt 1; VInt 2; VInt 3; VInt 4])]);
   ("Tetra10Elem", []);
   ("Hexa8Elem", []);
   ("Hexa20Elem", []);
   ("Penta6Elem", []);
   ("Penta15Elem", []);
   ("Groups", [(KInt 0, VSeq [VStr "Fixed"; VSeq [VInt edge_id]])])]%string.

(** Scenario E of the specification: a face with five nodes. *)
Definition scenario_E : FemMesh :=
  {| Edges := [];
     Faces := [1%Z];
     Volumes := [];
     getElementNodes := fun _ => [1; 2; 3; 4; 5]%Z;
     Nodes := [];
     Groups := [];
     getGroupName := fun _ => EmptyString;
     getGroupElements := fun _ => [] |}.




(** An element whose arity is not listed for its category. *)
Definition unsupported_element (femmesh : FemMesh) (c : category) (e : Z) : Prop :=
  In e (elements_of c femmesh) /\ bucket_for c (arity femmesh e) = None.

(** The characters [str] writes for a natural number are digits. *)
Definition digit_chars (s : list ascii) : Prop :=
  Forall (fun c => exists d, (0 <= d < 10)%Z /\ c = digit_char d) s.

(** The test of the normalizer: the bucket is not the group table. *)
Definition not_groups (type_key : string) : bool :=
  negb (String.eqb (lower type_key) "groups").

(** All keys of a bucket are integers. *)
Definition int_keys {V : Type} (b : Dict.t key V) : Prop :=
  forall k, In k (Dict.keys b) -> exists z, k = KInt z.

(** [b'] is [b] with its keys converted to integers and its values
    unchanged: every entry of [b'] is an entry of [b] under the integer
    its key denotes; every key of [b] has its integer among the keys of
    [b'], with the value [v] whenever all entries of [b] whose keys
    denote that integer carry [v]. *)
Definition rekeyed {V : Type} (b b' : Dict.t key V) : Prop :=
  (forall k v, In (k, v) b' ->
     exists k0 z, k = KInt z /\ py_int k0 = Ok z /\ In (k0, v) b) /\
  (forall k0 v, In (k0, v) b ->
     exists z, py_int k0 = Ok z /\ In (KInt z) (Dict.keys b') /\
               ((forall k1 v1, In (k1, v1) b -> py_int k1 = Ok z -> v1 = v) ->
                Dict.get (KInt z) b' = Some v)).

(** Two buckets hold the same entries once all keys are rendered as
    text, and two dicts have the same buckets up to that. *)
Definition same_up_to_key_type (b1 b2 : bucket) : Prop :=
  forall s, Dict.get (KStr s) (stringify_keys b1) = Dict.get (KStr s) (stringify_keys b2).

Definition equal_up_to_key_type (r1 r2 : mesh_dict) : Prop :=
  forall name,
    match Dict.get name r1, Dict.get name r2 with
    | Some b1, Some b2 => same_up_to_key_type b1 b2
    | None, None => True
    | _, _ => False
    end.

(** Scenario B of the specification: the dict of Scenario A as a text
    codec returns it, all keys strings. *)
Definition scenario_B_raw : mesh_dict :=
  denotes (dump JSON (scenario_A_record 1 2 3)).

(** What the loop of the normalizer keeps true of the dict it builds:
    no group table, and in every bucket distinct integer keys. *)
Definition normalized {V : Type} (acc : Dict.t string (Dict.t key V)) : Prop :=
  Dict.wf acc /\
  forall name b, In (name, b) acc ->
                 not_groups name = true /\ Dict.wf b /\ int_keys b.

(** Scenario B, normalized. *)
Definition scenario_B_normalized : mesh_dict :=
  filter (fun nb => not_groups (fst nb)) (scenario_A_record 1 2 3).

(** A raw dict with a key that is no integer. *)
Definition malformed_raw : Dict.t string (Dict.t key nat) :=
  [("Nodes"%string, [(KStr "1", 0); (KStr "x", 1)])].

(** A world with a silent console, no file and an empty document. *)
Definition empty_world : World :=
  {| console := []; files := Dict.empty; ActiveDocument := [] |}.

Definition empty_mesh : FemMesh :=
  {| Edges := []; Faces := []; Volumes := [];
     getElementNodes := fun _ => [];
     Nodes := Dict.empty;
     Groups := [];
     getGroupName := fun _ => EmptyString;
     getGroupElements := fun _ => [] |}.

(** A mesh constructor that hands back a mesh object whatever it is
    given, the empty dict included. *)
Definition always_builds (mesh_data : mesh_dict) : option FemMesh := Some empty_mesh.

(** The world after one more line on the console. *)
Definition printed (m : message) (w : World) : World :=
  {| console := console w ++ [m];
     files := files w;
     ActiveDocument := ActiveDocument w |}.

(** The selection the exporter refuses: not exactly one object, or one
    that is no FEM mesh object. *)
Definition bad_selection (objectslist : list DocumentObject) : Prop :=
  List.length objectslist <> 1 \/
  exists obj, objectslist = [obj] /\ isDerivedFrom obj "Fem::FemMeshObject" = false.

(** The extension the importer looks at, and whether it knows it. *)
Definition import_extension (fileString : string) : string :=
  lower (snd (splitext (snd (split fileString)))).

Definition unknown_extension (fileString : string) : Prop :=
  import_extension fileString <> ".json"%string /\
  import_extension fileString <> ".yaml"%string /\
  import_extension fileString <> ".yml"%string.

(* ================================================================= *)
(** ** Opening a file *)

(** [os.path.basename(p)] *)
Definition basename (path : string) : string :=
  let p := chars path in
  string_of_list_ascii (slice_from (rfind "/" p + 1) p).

(** A document: its objects, oldest first. *)
Definition Document : Type := list (string * DocumentObject).

(** The application: the console, the file system, the open documents
    by name and the name of the active one. *)
Record Application : Type := {
  app_console : list message;
  app_files : Dict.t string text;
  documents : Dict.t string Document;
  active : option string
}.

(** Modelled from the spec: [FreeCAD.getDocument(docname)] is outside
    the sources ("get_or_create_document(name) -> document_handle");
    [None] stands for the [NameError] the caller catches. *)
Definition getDocument (docname : string) (app : Application) : option Document :=
  Dict.get docname (documents app).

(** Modelled from the spec: [FreeCAD.newDocument(docname)], a new empty
    document under that name. *)
Definition newDocument (docname : string) (app : Application) : Application :=
  {| app_console := app_console app;
     app_files := app_files app;
     documents := Dict.set docname [] (documents app);
     active := active app |}.

(** [FreeCAD.ActiveDocument = doc] ("set_active(document_handle)") *)
Definition set_ActiveDocument (docname : string) (app : Application) : Application :=
  {| app_console := app_console app;
     app_files := app_files app;
     documents := documents app;
     active := Some docname |}.

(** The objects of a document, none when there is no such document. *)
Definition objects_of (docname : string) (app : Application) : Document :=
  match Dict.get docname (documents app) with
  | Some objects => objects
  | None => []
  end.

(** A computation of an entry point run with the document [docname] as
    [FreeCAD.ActiveDocument]: it sees the console, the files and the
    objects of that document, and what it leaves is stored back. *)
Definition with_document {A : Type} (docname : string) (c : M A)
  : Application -> Application * result A :=
  fun app =>
    match c {| console := app_console app;
               files := app_files app;
               ActiveDocument := objects_of docname app |} with
    | (w', r) =>
        ({| app_console := console w';
            app_files := files w';
            documents := Dict.set docname (ActiveDocument w') (documents app);
            active := active app |}, r)
    end.

Section DocumentEntryPoints.
(** The module-level flag set when [import yaml] succeeded. *)
Variable has_yaml : bool.

(** Modelled from the spec: [importToolsFem.make_femmesh], as for
    [import_yaml_json_mesh]. *)
Variable make_femmesh : mesh_dict -> option FemMesh.

Definition insert (filename docname : string) : Application -> Application * result unit :=
  fun app =>
    let app1 :=
      match getDocument docname app with
      | Some _ => app
      | None => newDocument docname app   (* except NameError *)
      end in
    with_document docname (import_yaml_json_mesh has_yaml make_femmesh filename)
      (set_ActiveDocument docname app1).

Definition open (filename : string) : Application -> Application * result unit :=
  let docname := fst (splitext (basename filename)) in
  insert filename docname.
End DocumentEntryPoints.

(* ================================================================= *)
(** ** More vocabulary *)

(** The name the importer gives the object it creates. *)
Definition mesh_name (fileString : string) : string :=
  fst (splitext (snd (split fileString))).

(** The extension the exporter looks at. *)
Definition export_extension (fileString : string) : string :=
  lower (snd (splitext fileString)).

(** The importer's choice of a codec, if it makes one. *)
Definition yaml_extension (ext : string) : Prop :=
  ext = ".yaml"%string \/ ext = ".yml"%string.

(** The world after a file was written. *)
Definition written (path : string) (t : text) (w : World) : World :=
  {| console := console w;
     files := Dict.set path t (files w);
     ActiveDocument := ActiveDocument w |}.

(** The world after the two progress messages of the importer. *)
Definition converted (w : World) : World :=
  printed (PrintMessage ("OK" ++ newline))
    (printed (PrintMessage "Converting indices to integer numbers ...") w).

(** What the importer does with the mesh constructor's answer. *)
Definition attach (name : string) (built : option FemMesh) (w : World) : World * result unit :=
  match built with
  | Some femmesh => addObject name femmesh w
  | None => (w, Ok tt)
  end.

(** The elements of a mesh in the order the converter visits them, each
    with its category. *)
Definition visited (femmesh : FemMesh) : list (category * Z) :=
  map (pair Edge) (Edges femmesh) ++
  map (pair Face) (Faces femmesh) ++
  map (pair Volume) (Volumes femmesh).

(** The key of a bucket entry denotes the integer [z]. *)
Definition denotes_int {V : Type} (z : Z) (kv : key * V) : Prop :=
  py_int (fst kv) = Ok z.

(** Every key of a bucket is accepted by [int()]. *)
Definition parsable {V : Type} (b : Dict.t key V) : Prop :=
  forall k v, In (k, v) b -> exists z, py_int k = Ok z.

(** The codec both entry points select for a lower-cased extension: the
    chain [== ".json"], [(== ".yaml" or == ".yml") and has_yaml]. *)
Definition codec_for (has_yaml : bool) (ext : string) : option codec :=
  if String.eqb ext ".json" then Some JSON
  else if (String.eqb ext ".yaml" || String.eqb ext ".yml") && has_yaml then Some YAML
  else None.

Definition converting : message :=
  PrintMessage "Converting indices to integer numbers ...".

Definition unknown_extension_error : message :=
  PrintError ("Unknown extension, please select other importer." ++ newline).

(** The importer once the codec [c] is selected: read, parse,
    normalize, build, attach. *)
Definition import_with (c : codec) (make_femmesh : mesh_dict -> option FemMesh)
                       (fileString : string) (w : World) : World * result unit :=
  match Dict.get fileString (files w) with
  | None => (w, Raise (IOError fileString))
  | Some t =>
      match load c t with
      | Raise e => (w, Raise e)
      | Ok raw_mesh_data =>
          match convert_raw_data_to_mesh_data raw_mesh_data with
          | Raise e => (printed converting w, Raise e)
          | Ok mesh_data =>
              attach (mesh_name fileString) (make_femmesh mesh_data) (converted w)
          end
      end
  end.

(** The importer when no codec is selected. *)
Definition import_without (make_femmesh : mesh_dict -> option FemMesh)
                          (fileString : string) (w : World) : World * result unit :=
  attach (mesh_name fileString) (make_femmesh Dict.empty)
         (converted (printed unknown_extension_error w)).

(** The arity is listed for the category in the converter's tables. *)
Definition listed (femmesh : FemMesh) (ce : category * Z) : bool :=
  match Dict.get (arity femmesh (snd ce)) (table_of (fst ce)) with
  | Some _ => true
  | None => false
  end.

(** [int()] accepts the key. *)
Definition parses (k : key) : bool :=
  match py_int k with
  | Ok _ => true
  | Raise _ => false
  end.

(** The keys the normalizer converts, in the order it meets them. *)
Definition converted_keys {V : Type} (raw : Dict.t string (Dict.t key V)) : list key :=
  flat_map (fun nb => if not_groups (fst nb) then Dict.keys (snd nb) else []) raw.

(** A bucket in which two keys denote the integer 1. *)
Definition colliding_raw : Dict.t string (Dict.t key nat) :=
  [("Nodes"%string, [(KStr "1", 10); (KStr "7", 70); (KStr "01", 11)])].

(** A dict whose group table has a key that is no integer. *)
Definition odd_groups_raw : Dict.t string (Dict.t key nat) :=
  [("Nodes"%string, [(KStr "1", 10)]); ("GROUPS"%string, [(KStr "x", 0)])].

(** An application with no document and one JSON file, the dict of
    Scenario A. *)
Definition scenario_app : Application :=
  {| app_console := [];
     app_files := [("dir/mesh.json"%string, dump JSON (scenario_A_record 1 2 3))];
     documents := [];
     active := None |}.

Definition category_eqb (a b : category) : bool :=
  match a, b with
  | Edge, Edge | Face, Face | Volume, Volume => true
  | _, _ => false
  end.

(** A world whose only file is a JSON text with a key that is no
    integer. *)
Definition malformed_text : text :=
  {| written_by := JSON;
     denotes := [("Nodes"%string, [(KStr "x", VSeq [])])] |}.

Definition malformed_world : World :=
  {| console := [];
     files := [("m.json"%string, malformed_text)];
     ActiveDocument := [] |}.

(* ================================================================= *)
(** * Properties *)

(** ** Facts about dictionaries *)

Module DictFacts.
Section Facts.
Context {K : Type} `{Hashable K} {V : Type}.
Implicit Types (d : Dict.t K V) (k : K) (v : V).

Lemma eqb_refl k : key_eqb k k = true.
Proof. destruct (key_eqb_spec k k); congruence. Qed.

Lemma eqb_neq k k' : k <> k' -> key_eqb k k' = false.
Proof. intros Hne. destruct (key_eqb_spec k k'); congruence. Qed.

Lemma get_app k d1 d2 :
  Dict.get k (d1 ++ d2) =
  match Dict.get k d1 with Some v => Some v | None => Dict.get k d2 end.
Proof.
  induction d1 as [|[k1 v1] d1 IH]; simpl; [reflexivity|].
  destruct (key_eqb k k1); [reflexivity | exact IH].
Qed.

Lemma get_set k k' v d :
  Dict.get k (Dict.set k' v d) = if key_eqb k k' then Some v else Dict.get k d.
Proof.
  induction d as [|[k1 v1] d IH]; simpl; [reflexivity|].
  destruct (key_eqb_spec k' k1) as [->|Hne]; simpl.
  - destruct (key_eqb k k1); reflexivity.
  - rewrite IH. destruct (key_eqb_spec k k') as [->|Hne'].
    + now rewrite (eqb_neq Hne).
    + reflexivity.
Qed.

Lemma get_None k d : Dict.get k d = None <-> ~ In k (Dict.keys d).
Proof.
  induction d as [|[k1 v1] d IH]; simpl; [tauto|].
  destruct (key_eqb_spec k k1) as [->|Hne].
  - split; [discriminate | intros Hn; exfalso; apply Hn; now left].
  - rewrite IH. split; [intros Hn [Heq|Hin]; [congruence | tauto] | tauto].
Qed.

Lemma get_Some_In k v d : Dict.get k d = Some v -> In (k, v) d.
Proof.
  induction d as [|[k1 v1] d IH]; simpl; [discriminate|].
  destruct (key_eqb_spec k k1) as [->|Hne].
  - intros [= ->]. now left.
  - intros Hg. right. now apply IH.
Qed.

Lemma In_keys k v d : In (k, v) d -> In k (Dict.keys d).
Proof. intros Hin. apply (in_map fst) in Hin. exact Hin. Qed.

Lemma In_get k v d : Dict.wf d -> In (k, v) d -> Dict.get k d = Some v.
Proof.
  unfold Dict.wf. induction d as [|[k1 v1] d IH]; simpl; [tauto|].
  intros Hnd [Heq|Hin]; inversion Hnd as [|? ? Hnotin Hnd']; subst.
  - injection Heq as -> ->. now rewrite eqb_refl.
  - destruct (key_eqb_spec k k1) as [->|Hne].
    + exfalso. apply Hnotin. eapply In_keys; eassumption.
    + now apply IH.
Qed.

Lemma keys_set k k' v d :
  In k (Dict.keys (Dict.set k' v d)) <-> k = k' \/ In k (Dict.keys d).
Proof.
  induction d as [|[k1 v1] d IH]; simpl; [intuition congruence|].
  destruct (key_eqb_spec k' k1) as [->|Hne]; simpl.
  - intuition congruence.
  - rewrite IH. intuition congruence.
Qed.

Lemma set_fresh k v d :
  ~ In k (Dict.keys d) -> Dict.set k v d = d ++ [(k, v)].
Proof.
  induction d as [|[k1 v1] d IH]; simpl; [reflexivity|].
  intros Hn. destruct (key_eqb_spec k k1) as [->|Hne]; [tauto|].
  rewrite IH; [reflexivity | tauto].
Qed.

Lemma wf_set k v d : Dict.wf d -> Dict.wf (Dict.set k v d).
Proof.
  unfold Dict.wf. induction d as [|[k1 v1] d IH]; simpl.
  - intros _. constructor; [simpl; tauto | constructor].
  - intros Hnd. inversion Hnd as [|? ? Hnotin Hnd']; subst.
    destruct (key_eqb_spec k k1) as [->|Hne]; simpl.
    + now constructor.
    + constructor; [|now apply IH].
      change (~ In k1 (Dict.keys (Dict.set k v d))).
      rewrite keys_set. intros [Heq|Hin]; [congruence | tauto].
Qed.

Local Abbreviation set_entry :=
  (fun (d : Dict.t K V) (kv : K * V) => Dict.set (fst kv) (snd kv) d).

Lemma wf_fold (l : list (K * V)) d :
  Dict.wf d -> Dict.wf (fold_left set_entry l d).
Proof.
  revert d. induction l as [|[k v] l IH]; simpl; intros d Hwf; [exact Hwf|].
  apply IH. now apply wf_set.
Qed.

Lemma wf_of_items (l : list (K * V)) : Dict.wf (Dict.of_items l).
Proof. apply (wf_fold l). constructor. Qed.

Lemma get_fold (l : list (K * V)) d k :
  Dict.get k (fold_left set_entry l d) =
  match Dict.get k (rev l) with Some v => Some v | None => Dict.get k d end.
Proof.
  revert d. induction l as [|[k1 v1] l IH]; simpl; intros d; [reflexivity|].
  rewrite IH, get_app. destruct (Dict.get k (rev l)); [reflexivity|].
  simpl. rewrite get_set.
  destruct (key_eqb k k1); reflexivity.
Qed.

(** In [dict(pairs)] a key has the value of its last pair. *)
Lemma get_of_items (l : list (K * V)) k :
  Dict.get k (Dict.of_items l) = Dict.get k (rev l).
Proof.
  unfold Dict.of_items. rewrite (get_fold l Dict.empty k).
  destruct (Dict.get k (rev l)); reflexivity.
Qed.

Lemma fold_fresh (l : list (K * V)) d :
  NoDup (Dict.keys (d ++ l)) -> fold_left set_entry l d = d ++ l.
Proof.
  revert d. induction l as [|[k v] l IH]; simpl; intros d Hnd.
  - now rewrite app_nil_r.
  - assert (Hd : Dict.set k v d = d ++ [(k, v)]).
    { apply set_fresh. unfold Dict.keys in *. rewrite map_app in Hnd. simpl in Hnd.
      apply NoDup_remove_2 in Hnd. intros Hin. apply Hnd, in_or_app. now left. }
    rewrite Hd, IH; rewrite <- app_assoc; [reflexivity | exact Hnd].
Qed.

(** [dict(d.items())] is [d] again. *)
Lemma of_items_wf d : Dict.wf d -> Dict.of_items d = d.
Proof. intros Hwf. apply (fold_fresh d Dict.empty). exact Hwf. Qed.

Lemma keys_get k d : In k (Dict.keys d) <-> exists v, Dict.get k d = Some v.
Proof.
  induction d as [|[k1 v1] d IH]; simpl.
  - split; [tauto | intros [v Hv]; discriminate].
  - destruct (key_eqb_spec k k1) as [->|Hne].
    + split; [intros _; now exists v1 | now left].
    + rewrite <- IH. split; [intros [Heq|Hin]; [congruence | exact Hin] | now right].
Qed.

Lemma keys_of_items (l : list (K * V)) k :
  In k (Dict.keys (Dict.of_items l)) <-> In k (map fst l).
Proof.
  rewrite keys_get. setoid_rewrite get_of_items. rewrite <- keys_get.
  unfold Dict.keys. rewrite map_rev. symmetry. apply in_rev.
Qed.

Lemma get_filter (f : K -> bool) k d :
  Dict.get k (filter (fun kv => f (fst kv)) d) =
  if f k then Dict.get k d else None.
Proof.
  induction d as [|[k1 v1] d IH]; simpl; [now destruct (f k)|].
  destruct (f k1) eqn:Hf1; simpl; destruct (key_eqb_spec k k1) as [->|Hne].
  - now rewrite Hf1.
  - exact IH.
  - rewrite IH. now rewrite Hf1.
  - exact IH.
Qed.
End Facts.
End DictFacts.

(* ================================================================= *)
(** ** Facts about the converter *)

Lemma elem_list_beq_eq (l l' : elem_list) : elem_list_beq l l' = true <-> l = l'.
Proof. destruct l, l'; simpl; split; intros Hx; congruence. Qed.

Lemma In_append l x st l' y :
  In y (append l x st l') <-> In y (st l') \/ (l = l' /\ y = x).
Proof.
  unfold append. destruct (elem_list_beq l l') eqn:Hb.
  - apply elem_list_beq_eq in Hb. rewrite in_app_iff. simpl. intuition congruence.
  - assert (l <> l') by (intros Heq; apply elem_list_beq_eq in Heq; congruence).
    intuition congruence.
Qed.

(** What a loop of the converter leaves in the lists when it completes. *)
Lemma analyze_Ok table femmesh elements st st' :
  analyze table femmesh elements st = Ok st' ->
  forall l y,
    In y (st' l) <->
    In y (st l) \/
    exists e, In e elements /\ y = (e, getElementNodes femmesh e) /\
              Dict.get (arity femmesh e) table = Some l.
Proof.
  revert st. induction elements as [|e rest IH]; simpl; intros st Hrun l y.
  - injection Hrun as <-. split; [now left | intros [Hy|(e & [] & _)]; exact Hy].
  - unfold subscript in Hrun. fold (arity femmesh e) in Hrun.
    destruct (Dict.get (arity femmesh e) table) as [l0|] eqn:Hl0; simpl in Hrun;
      [|discriminate].
    rewrite (IH _ Hrun l y), In_append. split.
    + intros [[Hy|[-> ->]]|(e' & Hin & Hy & Hl)].
      * now left.
      * right. exists e. auto.
      * right. exists e'. auto.
    + intros [Hy|(e' & [<-|Hin] & Hy & Hl)].
      * left. now left.
      * left. right. split; congruence.
      * right. exists e'. auto.
Qed.


(** ... and raises [KeyError] at the first arity that is not. *)
Lemma analyze_Raise table femmesh elements st :
  (exists e, In e elements /\ Dict.get (arity femmesh e) table = None) ->
  exists e, In e elements /\ Dict.get (arity femmesh e) table = None /\
            analyze table femmesh elements st = Raise (KeyError (arity femmesh e)).
Proof.
  revert st. induction elements as [|e rest IH]; simpl; intros st (e0 & Hin & Hnone).
  - destruct Hin.
  - unfold subscript. fold (arity femmesh e).
    destruct (Dict.get (arity femmesh e) table) as [l0|] eqn:Hl0; simpl.
    + destruct Hin as [<-|Hin]; [congruence|].
      destruct (IH (append l0 (e, getElementNodes femmesh e) st)) as (e1 & Hin1 & Hn1 & Hr1).
      { now exists e0. }
      exists e1. auto.
    + exists e. auto.
Qed.


Lemma table_of_None c n : Dict.get n (table_of c) = None <-> bucket_for c n = None.
Proof.
  destruct c; do 21 (destruct n as [|n]; [simpl; split; congruence|]);
    simpl; split; congruence.
Qed.

Lemma analyze_Raise_inv table femmesh elements st ex :
  analyze table femmesh elements st = Raise ex ->
  exists e, In e elements /\ Dict.get (arity femmesh e) table = None /\
            ex = KeyError (arity femmesh e).
Proof.
  revert st. induction elements as [|e rest IH]; simpl; intros st Hrun; [discriminate|].
  unfold subscript in Hrun. fold (arity femmesh e) in Hrun.
  destruct (Dict.get (arity femmesh e) table) as [l0|] eqn:Hl0; simpl in Hrun.
  - destruct (IH _ Hrun) as (e1 & Hin & Hn & Hex). exists e1. auto.
  - injection Hrun as <-. exists e. auto.
Qed.

Lemma table_of_inv c n l :
  Dict.get n (table_of c) = Some l -> c = category_of l /\ n = arity_of l.
Proof.
  destruct c; do 21 (destruct n as [|n]; [destruct l; simpl; split; congruence|]);
    destruct l; simpl; split; congruence.
Qed.


Lemma convert_Ok femmesh r :
  convert_femmesh_to_dict femmesh = Ok r ->
  exists st,
    r = record_of femmesh st /\
    forall l y,
      In y (st l) <->
      exists c e, In e (elements_of c femmesh) /\ y = (e, getElementNodes femmesh e) /\
                  Dict.get (arity femmesh e) (table_of c) = Some l.
Proof.
  unfold convert_femmesh_to_dict. intros Hrun.
  destruct (analyze len_to_edge femmesh (Edges femmesh) empty_store) as [st1|] eqn:H1;
    simpl in Hrun; [|discriminate].
  destruct (analyze len_to_face femmesh (Faces femmesh) st1) as [st2|] eqn:H2;
    simpl in Hrun; [|discriminate].
  destruct (analyze len_to_volume femmesh (Volumes femmesh) st2) as [st3|] eqn:H3;
    simpl in Hrun; [|discriminate].
  injection Hrun as <-. exists st3. split; [reflexivity|].
  intros l y.
  rewrite (analyze_Ok _ _ _ _ H3 l y), (analyze_Ok _ _ _ _ H2 l y),
    (analyze_Ok _ _ _ _ H1 l y).
  unfold empty_store. simpl. split.
  - intros [[[[]|(e & He)]|(e & He)]|(e & He)].
    + now exists Edge, e.
    + now exists Face, e.
    + now exists Volume, e.
  - intros ([] & e & He); simpl in He; eauto 6.
Qed.

Lemma get_bucket femmesh st l :
  Dict.get (bucket_name l) (record_of femmesh st) = Some (elem_dict (st l)).
Proof. destruct l; reflexivity. Qed.


Lemma NoDup_map_KInt (ks : list Z) : NoDup ks -> NoDup (map KInt ks).
Proof.
  induction 1 as [|k ks Hnotin Hnd IH]; simpl; constructor; [|exact IH].
  intros Hin. apply in_map_iff in Hin as (k' & [= ->] & Hin). contradiction.
Qed.






(* ================================================================= *)
(** ** The converter: classification, failure, bucket names *)





(** C4. When some element has an arity that is not listed for its
    category, the converter raises [KeyError] on such an arity: it
    returns no dict, and the element is not skipped. *)
Theorem convert_unsupported_arity_raises femmesh :
  (exists c e, unsupported_element femmesh c e) ->
  exists c e, unsupported_element femmesh c e /\
              convert_femmesh_to_dict femmesh = Raise (KeyError (arity femmesh e)).
Proof.
  intros (c0 & e0 & Hin0 & Hnone0). unfold convert_femmesh_to_dict.
  assert (Hinv : forall c st ex,
            analyze (table_of c) femmesh (elements_of c femmesh) st = Raise ex ->
            exists e, unsupported_element femmesh c e /\ ex = KeyError (arity femmesh e)).
  { intros c st ex Hr. apply analyze_Raise_inv in Hr as (e & Hin & Hn & ->).
    exists e. split; [|reflexivity]. split; [exact Hin | now apply table_of_None]. }
  destruct (analyze len_to_edge femmesh (Edges femmesh) empty_store) as [st1|ex] eqn:H1;
    simpl.
  2: { destruct (Hinv Edge _ _ H1) as (e & He & ->). now exists Edge, e. }
  destruct (analyze len_to_face femmesh (Faces femmesh) st1) as [st2|ex] eqn:H2; simpl.
  2: { destruct (Hinv Face _ _ H2) as (e & He & ->). now exists Face, e. }
  destruct (analyze len_to_volume femmesh (Volumes femmesh) st2) as [st3|ex] eqn:H3; simpl.
  2: { destruct (Hinv Volume _ _ H3) as (e & He & ->). now exists Volume, e. }
  exfalso. destruct c0.
  - destruct (analyze_Raise len_to_edge femmesh (Edges femmesh) empty_store)
      as (e & _ & _ & Hr); [|congruence].
    exists e0. split; [exact Hin0 | now apply (table_of_None Edge)].
  - destruct (analyze_Raise len_to_face femmesh (Faces femmesh) st1)
      as (e & _ & _ & Hr); [|congruence].
    exists e0. split; [exact Hin0 | now apply (table_of_None Face)].
  - destruct (analyze_Raise len_to_volume femmesh (Volumes femmesh) st2)
      as (e & _ & _ & Hr); [|congruence].
    exists e0. split; [exact Hin0 | now apply (table_of_None Volume)].
Qed.

Lemma scenario_E_unsupported : exists c e, unsupported_element scenario_E c e.
Proof. exists Face, 1%Z. split; [now left | reflexivity]. Qed.

Lemma convert_unsupported_arity_raises_witness :
  (exists c e, unsupported_element scenario_E c e) /\
  exists c e, unsupported_element scenario_E c e /\
              convert_femmesh_to_dict scenario_E = Raise (KeyError (arity scenario_E e)).
Proof.
  split; [exact scenario_E_unsupported|].
  exact (convert_unsupported_arity_raises scenario_E_unsupported).
Defined.

(** C5. Whatever the mesh, the dict the converter returns has the
    fourteen keys [Nodes], the twelve element buckets and [Groups], each
    exactly once; every one of them is present, be its bucket empty. *)
Theorem convert_bucket_names femmesh r :
  convert_femmesh_to_dict femmesh = Ok r ->
  Dict.keys r = bucket_names /\
  List.length bucket_names = 14 /\ NoDup bucket_names /\
  forall name, In name bucket_names <-> exists b, Dict.get name r = Some b.
Proof.
  intros Hr. destruct (convert_Ok _ Hr) as (st & -> & _).
  assert (Hnd : NoDup bucket_names).
  { unfold bucket_names.
    repeat (constructor; [simpl; intuition discriminate|]). constructor. }
  split; [reflexivity|]. split; [reflexivity|]. split; [exact Hnd|].
  intros name. rewrite <- DictFacts.keys_get. reflexivity.
Qed.

Lemma convert_bucket_names_witness :
  convert_femmesh_to_dict (scenario_A 1 2 3) = Ok (scenario_A_record 1 2 3) /\
  Dict.keys (scenario_A_record 1 2 3) = bucket_names /\
  List.length bucket_names = 14 /\ NoDup bucket_names /\
  forall name, In name bucket_names <->
               exists b, Dict.get name (scenario_A_record 1 2 3) = Some b.
Proof.
  assert (Hr : convert_femmesh_to_dict (scenario_A 1 2 3) = Ok (scenario_A_record 1 2 3))
    by reflexivity.
  split; [exact Hr|]. exact (convert_bucket_names _ Hr).
Defined.

(* ================================================================= *)
(** ** [int(str(z))] is [z] *)

Local Open Scope Z_scope.

Lemma digit_cases (d : Z) :
  0 <= d < 10 ->
  d = 0 \/ d = 1 \/ d = 2 \/ d = 3 \/ d = 4 \/ d = 5 \/ d = 6 \/ d = 7 \/ d = 8 \/ d = 9.
Proof. lia. Qed.

Ltac each_digit d H :=
  apply digit_cases in H;
  repeat (destruct H as [H|H]; [subst d|]); [..|subst d].

Lemma digit_of_digit_char d : 0 <= d < 10 -> digit_of (digit_char d) = Some d.
Proof. intros Hd. each_digit d Hd; reflexivity. Qed.

Lemma digit_char_not_underscore d : 0 <= d < 10 -> Ascii.eqb (digit_char d) "_" = false.
Proof. intros Hd. each_digit d Hd; reflexivity. Qed.

Lemma digit_char_not_space d : 0 <= d < 10 -> is_space (digit_char d) = false.
Proof. intros Hd. each_digit d Hd; reflexivity. Qed.

Lemma digits_fuel_S fuel n rest :
  digits_fuel (S fuel) n rest =
  if n <? 10 then digit_char (n mod 10) :: rest
  else digits_fuel fuel (n / 10) (digit_char (n mod 10) :: rest).
Proof. reflexivity. Qed.

(** Reading the digits written for [n] with nothing read before gives
    the state of having read [n]. *)
Lemma parse_digits_fuel fuel : forall n rest b,
  0 <= n < 10 * 2 ^ Z.of_nat fuel ->
  parse_digits 0 b (digits_fuel (S fuel) n rest) = parse_digits n true rest.
Proof.
  assert (Hstep : forall n rest b, 0 <= n < 10 ->
            parse_digits 0 b (digit_char n :: rest) = parse_digits n true rest).
  { intros n rest b Hn. simpl.
    rewrite (digit_char_not_underscore Hn), (digit_of_digit_char Hn).
    f_equal; lia. }
  assert (Hpush : forall q d rest, 0 <= d < 10 ->
            parse_digits q true (digit_char d :: rest) = parse_digits (10 * q + d) true rest).
  { intros q d rest Hd. simpl.
    now rewrite (digit_char_not_underscore Hd), (digit_of_digit_char Hd). }
  induction fuel as [|fuel IH]; intros n rest b Hn.
  - simpl in Hn. simpl. destruct (Z.ltb_spec n 10); [|lia].
    rewrite Z.mod_small by lia. apply Hstep. lia.
  - rewrite digits_fuel_S. destruct (Z.ltb_spec n 10) as [Hlt|Hge].
    + rewrite Z.mod_small by lia. apply Hstep. lia.
    + rewrite IH.
      * rewrite Hpush by (apply Z.mod_pos_bound; lia).
        f_equal. symmetry. apply Z.div_mod. lia.
      * rewrite Nat2Z.inj_succ, Z.pow_succ_r in Hn by lia.
        split; [apply Z.div_pos; lia|].
        apply Z.div_lt_upper_bound; lia.
Qed.

Lemma digits_bound n : 0 <= n -> n < 10 * 2 ^ Z.of_nat (Z.to_nat (Z.log2 n)).
Proof.
  intros Hn. rewrite Z2Nat.id by apply Z.log2_nonneg.
  destruct (Z.eq_dec n 0) as [->|Hne]; [reflexivity|].
  assert (H2 := Z.log2_spec n ltac:(lia)).
  rewrite Z.pow_succ_r in H2 by apply Z.log2_nonneg. lia.
Qed.

Lemma parse_digits_digits n b : 0 <= n -> parse_digits 0 b (digits n) = Some n.
Proof.
  intros Hn. unfold digits. rewrite parse_digits_fuel; [reflexivity|].
  split; [exact Hn | now apply digits_bound].
Qed.

Lemma digits_fuel_chars fuel : forall n rest,
  0 <= n -> digit_chars rest -> digit_chars (digits_fuel fuel n rest).
Proof.
  induction fuel as [|fuel IH]; intros n rest Hn Hrest; [exact Hrest|].
  rewrite digits_fuel_S.
  assert (Hpush : digit_chars (digit_char (n mod 10) :: rest)).
  { constructor; [|exact Hrest]. exists (n mod 10).
    split; [apply Z.mod_pos_bound; lia | reflexivity]. }
  destruct (n <? 10); [exact Hpush|].
  apply IH; [apply Z.div_pos; lia | exact Hpush].
Qed.

Lemma digits_fuel_cons fuel n rest :
  exists c s, digits_fuel (S fuel) n rest = c :: s.
Proof.
  revert n rest. induction fuel as [|fuel IH]; intros n rest.
  - simpl. destruct (n <? 10); eauto.
  - rewrite digits_fuel_S. destruct (n <? 10); [eauto|].
    apply (IH (n / 10) (digit_char (n mod 10) :: rest)).
Qed.

Lemma lstrip_head c s : is_space c = false -> lstrip (c :: s) = c :: s.
Proof. intros Hc. simpl. now rewrite Hc. Qed.

Lemma strip_no_space (s : list ascii) :
  Forall (fun c => is_space c = false) s -> strip s = s.
Proof.
  intros Hs. unfold strip.
  assert (Hl : forall t, Forall (fun c => is_space c = false) t -> lstrip t = t).
  { intros [|c t] Ht; [reflexivity|]. inversion Ht; subst. now apply lstrip_head. }
  rewrite (Hl s Hs), Hl, rev_involutive; [reflexivity|].
  apply Forall_rev. exact Hs.
Qed.

Lemma digit_chars_no_space s :
  digit_chars s -> Forall (fun c => is_space c = false) s.
Proof.
  intros Hs. eapply Forall_impl; [|exact Hs].
  intros c (d & Hd & ->). now apply digit_char_not_space.
Qed.

Lemma chars_string_of_list (s : list ascii) : chars (string_of_list_ascii s) = s.
Proof. apply list_ascii_of_string_of_list_ascii. Qed.

Lemma digit_char_ascii d : 0 <= d < 10 -> (code (digit_char d) <? 128) = true.
Proof. intros Hd. each_digit d Hd; reflexivity. Qed.

(** ASCII text is parsed as it stands. *)
Lemma ascii_literal_ascii (s : list ascii) :
  Forall (fun c => (code c <? 128) = true) s -> ascii_literal s = s.
Proof.
  intros Hs. unfold ascii_literal.
  replace (forallb (fun c => code c <? 128) s) with true; [reflexivity|].
  symmetry. apply forallb_forall. now apply Forall_forall.
Qed.

Lemma digit_chars_ascii s :
  digit_chars s -> Forall (fun c => (code c <? 128) = true) s.
Proof.
  intros Hs. eapply Forall_impl; [|exact Hs].
  intros c (d & Hd & ->). now apply digit_char_ascii.
Qed.

Theorem int_of_str_str_of_int (z : Z) : int_of_str (str_of_int z) = Ok z.
Proof.
  unfold int_of_str, str_of_int. rewrite chars_string_of_list.
  destruct (Z.ltb_spec z 0) as [Hneg|Hpos].
  - assert (Hd : digit_chars (digits (- z))).
    { apply digits_fuel_chars; [lia | constructor]. }
    rewrite ascii_literal_ascii
      by (constructor; [reflexivity | now apply digit_chars_ascii]).
    rewrite strip_no_space.
    + rewrite parse_digits_digits by lia. simpl. f_equal. lia.
    + constructor; [reflexivity | now apply digit_chars_no_space].
  - assert (Hd : digit_chars (digits z)).
    { apply digits_fuel_chars; [lia | constructor]. }
    rewrite ascii_literal_ascii by now apply digit_chars_ascii.
    rewrite strip_no_space by now apply digit_chars_no_space.
    destruct (digits_fuel_cons (Z.to_nat (Z.log2 z)) z []) as (c & s & Hcs).
    fold (digits z) in Hcs.
    assert (Hp := parse_digits_digits false Hpos).
    rewrite Hcs in Hd, Hp |- *.
    inversion Hd as [|? ? (d & Hrange & ->) _]; subst.
    each_digit d Hrange; cbv beta iota delta [digit_char]; simpl;
      simpl in Hp; rewrite Hp; reflexivity.
Qed.

Lemma str_of_int_inj (a b : Z) : str_of_int a = str_of_int b -> a = b.
Proof.
  intros Heq. assert (Ha := int_of_str_str_of_int a).
  rewrite Heq, int_of_str_str_of_int in Ha. congruence.
Qed.

Local Close Scope Z_scope.

(* ================================================================= *)
(** ** Facts about the normalizer *)

Section NormalizerFacts.
Context {V : Type}.
Implicit Types (b : Dict.t key V) (es : list (string * Dict.t key V)).

Lemma py_int_Raise k ex :
  py_int k = Raise ex ->
  exists s, k = KStr s /\ ex = ValueError s /\ int_of_str s = Raise (ValueError s).
Proof.
  destruct k as [z|s]; simpl; [discriminate|].
  intros Hr. assert (Hex : ex = ValueError s).
  { unfold int_of_str in Hr.
    match type of Hr with
    | match ?p with _ => _ end = _ => destruct p; [discriminate | congruence]
    end. }
  subst ex. exists s. auto.
Qed.

Lemma int_keyed_In_r b l k v :
  int_keyed b = Ok l -> In (k, v) l ->
  exists k0 z, k = KInt z /\ py_int k0 = Ok z /\ In (k0, v) b.
Proof.
  revert l. induction b as [|[k1 v1] b IH]; simpl; intros l Hrun Hin.
  - injection Hrun as <-. destruct Hin.
  - destruct (py_int k1) as [z1|] eqn:Hk1; simpl in Hrun; [|discriminate].
    destruct (int_keyed b) as [l1|]; simpl in Hrun; [|discriminate].
    injection Hrun as <-. destruct Hin as [[= <- <-]|Hin].
    + exists k1, z1. auto.
    + destruct (IH l1 eq_refl Hin) as (k0 & z & -> & Hz & Hin0).
      exists k0, z. auto.
Qed.

Lemma int_keyed_In_l b l k0 v :
  int_keyed b = Ok l -> In (k0, v) b ->
  exists z, py_int k0 = Ok z /\ In (KInt z, v) l.
Proof.
  revert l. induction b as [|[k1 v1] b IH]; simpl; intros l Hrun Hin; [destruct Hin|].
  destruct (py_int k1) as [z1|] eqn:Hk1; simpl in Hrun; [|discriminate].
  destruct (int_keyed b) as [l1|]; simpl in Hrun; [|discriminate].
  injection Hrun as <-. destruct Hin as [[= -> ->]|Hin].
  - exists z1. split; [exact Hk1 | now left].
  - destruct (IH l1 eq_refl Hin) as (z & Hz & Hin1). exists z. split; [exact Hz | now right].
Qed.

(** The comprehension fails only on a string key that is no integer... *)
Lemma int_keyed_Raise_inv b ex :
  int_keyed b = Raise ex ->
  exists s v, In (KStr s, v) b /\ ex = ValueError s /\
              int_of_str s = Raise (ValueError s).
Proof.
  induction b as [|[k1 v1] b IH]; simpl; intros Hrun; [discriminate|].
  destruct (py_int k1) as [z1|ex1] eqn:Hk1; simpl in Hrun.
  - destruct (int_keyed b) as [l1|ex2]; simpl in Hrun; [discriminate|].
    injection Hrun as <-. destruct (IH eq_refl) as (s & v & Hin & Hex & Hs).
    exists s, v. auto.
  - injection Hrun as <-. apply py_int_Raise in Hk1 as (s & -> & -> & Hs).
    exists s, v1. auto.
Qed.

(** ... and does fail when there is one. *)
Lemma int_keyed_bad b k v :
  In (k, v) b -> (forall z, py_int k <> Ok z) -> exists ex, int_keyed b = Raise ex.
Proof.
  intros Hin Hbad. destruct (int_keyed b) as [l|ex] eqn:Hrun; [|now exists ex].
  destruct (int_keyed_In_l _ _ _ Hrun Hin) as (z & Hz & _). destruct (Hbad z Hz).
Qed.

Lemma In_of_items {K : Type} `{Hashable K} (l : list (K * V)) (kv : K * V) :
  In kv (Dict.of_items l) -> In kv l.
Proof.
  destruct kv as [k v]. intros Hin.
  apply (DictFacts.In_get _ _ (DictFacts.wf_of_items l)) in Hin.
  rewrite DictFacts.get_of_items in Hin. apply DictFacts.get_Some_In in Hin.
  now apply in_rev.
Qed.

Lemma int_keyed_rekeyed b l : int_keyed b = Ok l -> rekeyed b (Dict.of_items l).
Proof.
  intros Hrun. split.
  - intros k v Hin. apply In_of_items in Hin. eapply int_keyed_In_r; eassumption.
  - intros k0 v Hin. destruct (int_keyed_In_l _ _ _ Hrun Hin) as (z & Hz & Hl).
    exists z. split; [exact Hz|].
    assert (Hk : In (KInt z) (Dict.keys (Dict.of_items l))).
    { apply DictFacts.keys_of_items. apply (in_map fst) in Hl. exact Hl. }
    split; [exact Hk|]. intros Hsame.
    apply DictFacts.keys_get in Hk as [v' Hv']. rewrite Hv'. f_equal.
    apply DictFacts.get_Some_In, In_of_items in Hv'.
    destruct (int_keyed_In_r _ _ _ Hrun Hv') as (k1 & z1 & [= <-] & Hz1 & Hin1).
    exact (Hsame _ _ Hin1 Hz1).
Qed.

Lemma normalize_entries_cons type_key type_dict es acc :
  normalize_entries ((type_key, type_dict) :: es) acc =
  if not_groups type_key
  then bind (int_keyed type_dict)
         (fun pairs =>
            normalize_entries es (Dict.set type_key (Dict.of_items pairs) acc))
  else normalize_entries es acc.
Proof. reflexivity. Qed.

Lemma normalize_entries_Raise_inv es acc ex :
  normalize_entries es acc = Raise ex ->
  exists name b s v,
    In (name, b) es /\ not_groups name = true /\ In (KStr s, v) b /\
    ex = ValueError s /\ int_of_str s = Raise (ValueError s).
Proof.
  revert acc. induction es as [|[name0 b0] es IH]; intros acc Hrun; [discriminate|].
  rewrite normalize_entries_cons in Hrun.
  assert (Hrest : forall acc', normalize_entries es acc' = Raise ex ->
            exists name b s v,
              In (name, b) ((name0, b0) :: es) /\ not_groups name = true /\
              In (KStr s, v) b /\ ex = ValueError s /\
              int_of_str s = Raise (ValueError s)).
  { intros acc' Hr. destruct (IH _ Hr) as (name & b & s & v & Hin & Hrest).
    exists name, b, s, v. split; [now right | exact Hrest]. }
  destruct (not_groups name0) eqn:Hng; [|now apply (Hrest acc)].
  destruct (int_keyed b0) as [l0|ex0] eqn:Hk; simpl in Hrun.
  - now apply (Hrest _ Hrun).
  - injection Hrun as <-. apply int_keyed_Raise_inv in Hk as (s & v & Hin & Hex & Hs).
    exists name0, b0, s, v. split; [now left | auto].
Qed.

Lemma normalize_entries_bad es acc name b k v :
  In (name, b) es -> not_groups name = true -> In (k, v) b ->
  (forall z, py_int k <> Ok z) ->
  exists ex, normalize_entries es acc = Raise ex.
Proof.
  intros Hin Hng Hk Hbad. revert acc.
  induction es as [|[name0 b0] es IH]; intros acc; [destruct Hin|].
  rewrite normalize_entries_cons.
  destruct Hin as [[= -> ->]|Hin].
  - rewrite Hng. destruct (int_keyed_bad _ _ _ Hk Hbad) as [ex ->]. now exists ex.
  - destruct (not_groups name0); [|now apply IH].
    destruct (int_keyed b0) as [l0|ex0]; simpl; [now apply IH | now exists ex0].
Qed.
End NormalizerFacts.

Section NormalizerLoop.
Context {V : Type}.
Implicit Types (b : Dict.t key V) (es acc out : Dict.t string (Dict.t key V)).

(** A name that is skipped, or does not occur, keeps what the dict
    built so far has for it. *)
Lemma normalize_entries_get_skip es : forall acc out name,
  normalize_entries es acc = Ok out ->
  not_groups name = false \/ ~ In name (map fst es) ->
  Dict.get name out = Dict.get name acc.
Proof.
  induction es as [|[name0 b0] es IH]; intros acc out name Hrun Hname.
  - now injection Hrun as <-.
  - rewrite normalize_entries_cons in Hrun.
    assert (Hrest : not_groups name = false \/ ~ In name (map fst es)).
    { destruct Hname as [Hg|Hn]; [now left | right]. simpl in Hn. tauto. }
    destruct (not_groups name0) eqn:Hng; [|now apply IH].
    destruct (int_keyed b0) as [l0|] eqn:Hk; simpl in Hrun; [|discriminate].
    rewrite (IH _ _ name Hrun Hrest), DictFacts.get_set.
    destruct (key_eqb_spec name name0) as [->|Hne]; [|reflexivity].
    destruct Hname as [Hg|Hn]; [congruence | simpl in Hn; tauto].
Qed.

(** A bucket that is not skipped is rebuilt from its re-keyed entries. *)
Lemma normalize_entries_get es : forall acc out name b,
  normalize_entries es acc = Ok out ->
  NoDup (map fst es) -> In (name, b) es -> not_groups name = true ->
  exists l, int_keyed b = Ok l /\ Dict.get name out = Some (Dict.of_items l).
Proof.
  induction es as [|[name0 b0] es IH]; intros acc out name b Hrun Hnd Hin Hng;
    [destruct Hin|].
  rewrite normalize_entries_cons in Hrun. simpl in Hnd.
  inversion Hnd as [|? ? Hfresh Hnd']; subst.
  destruct Hin as [[= -> ->]|Hin].
  - rewrite Hng in Hrun.
    destruct (int_keyed b) as [l0|] eqn:Hk; simpl in Hrun; [|discriminate].
    exists l0. split; [reflexivity|].
    rewrite (@normalize_entries_get_skip es _ _ name Hrun (or_intror Hfresh)),
      DictFacts.get_set.
    now rewrite DictFacts.eqb_refl.
  - destruct (not_groups name0); [|now apply (IH _ _ _ _ Hrun)].
    destruct (int_keyed b0) as [l0|]; simpl in Hrun; [|discriminate].
    now apply (IH _ _ _ _ Hrun).
Qed.

(** When re-keying [g b] gives back [b] for every bucket [b] that is
    not skipped, the loop appends these buckets as they are. *)
Lemma normalize_entries_restores (g : Dict.t key V -> Dict.t key V) es : forall acc,
  NoDup (map fst acc ++ map fst es) ->
  (forall name b, In (name, b) es -> not_groups name = true ->
                  int_keyed (g b) = Ok b /\ Dict.wf b) ->
  normalize_entries (map (fun nb => (fst nb, g (snd nb))) es) acc =
  Ok (acc ++ filter (fun nb => not_groups (fst nb)) es).
Proof.
  induction es as [|[name0 b0] es IH]; intros acc Hnd Hg; simpl map.
  - simpl. now rewrite app_nil_r.
  - rewrite normalize_entries_cons. simpl filter. simpl fst. simpl snd.
    assert (Hg' : forall name b, In (name, b) es -> not_groups name = true ->
              int_keyed (g b) = Ok b /\ Dict.wf b).
    { intros name b Hin. apply Hg. now right. }
    simpl in Hnd. destruct (not_groups name0) eqn:Hng.
    + destruct (Hg name0 b0 (or_introl eq_refl) Hng) as [-> Hwf]. simpl.
      rewrite (DictFacts.of_items_wf Hwf), DictFacts.set_fresh.
      * rewrite IH; [now rewrite <- app_assoc | | exact Hg'].
        rewrite map_app, <- app_assoc. exact Hnd.
      * apply NoDup_remove_2 in Hnd. intros Hin. apply Hnd, in_or_app. now left.
    + apply IH; [|exact Hg']. now apply NoDup_remove_1 in Hnd.
Qed.

Lemma int_keyed_int_keys b : int_keys b -> int_keyed b = Ok b.
Proof.
  induction b as [|[k v] b IH]; intros Hint; [reflexivity|]. simpl.
  destruct (Hint k (or_introl eq_refl)) as [z ->]. simpl.
  rewrite IH; [reflexivity|]. intros k' Hin. apply Hint. now right.
Qed.

Lemma In_set {K : Type} `{Hashable K} {A : Type} (d : Dict.t K A) k v kv :
  In kv (Dict.set k v d) -> kv = (k, v) \/ In kv d.
Proof.
  induction d as [|[k1 v1] d IH]; simpl; [intuition congruence|].
  destruct (key_eqb_spec k k1) as [->|Hne]; simpl; [intuition congruence|].
  intros [Heq|Hin]; [tauto|]. destruct (IH Hin); tauto.
Qed.

Lemma normalize_entries_normalized es : forall acc out,
  normalize_entries es acc = Ok out -> normalized acc -> normalized out.
Proof.
  induction es as [|[name0 b0] es IH]; intros acc out Hrun Hacc.
  - now injection Hrun as <-.
  - rewrite normalize_entries_cons in Hrun.
    destruct (not_groups name0) eqn:Hng; [|now apply (IH _ _ Hrun)].
    destruct (int_keyed b0) as [l0|] eqn:Hk; simpl in Hrun; [|discriminate].
    apply (IH _ _ Hrun). destruct Hacc as [Hwf Hall]. split.
    + now apply DictFacts.wf_set.
    + intros name b Hin. apply In_set in Hin as [[= -> ->]|Hin]; [|now apply Hall].
      split; [exact Hng|]. split; [apply DictFacts.wf_of_items|].
      intros k Hin. apply (proj1 (DictFacts.keys_of_items l0 k)) in Hin.
      apply in_map_iff in Hin as ([k' v'] & <- & Hin).
      destruct (int_keyed_In_r _ _ _ Hk Hin) as (k0 & z & -> & _). now exists z.
Qed.

Lemma filter_all {A : Type} (f : A -> bool) (l : list A) :
  (forall a, In a l -> f a = true) -> filter f l = l.
Proof.
  induction l as [|a l IH]; intros Hall; [reflexivity|]. simpl.
  rewrite (Hall a (or_introl eq_refl)), IH; [reflexivity|].
  intros a' Hin. apply Hall. now right.
Qed.

Lemma normalize_int_keyed es :
  Dict.wf es ->
  (forall name b, In (name, b) es -> not_groups name = true ->
                  Dict.wf b /\ int_keys b) ->
  convert_raw_data_to_mesh_data es =
  Ok (filter (fun nb => not_groups (fst nb)) es).
Proof.
  intros Hwf Hall. unfold convert_raw_data_to_mesh_data, Dict.items.
  assert (Hid : map (fun nb : string * Dict.t key V => (fst nb, snd nb)) es = es).
  { rewrite <- (map_id es) at 2. apply map_ext. now intros []. }
  rewrite <- Hid at 1.
  rewrite (@normalize_entries_restores (fun b => b) es Dict.empty).
  - reflexivity.
  - exact Hwf.
  - intros name b Hin Hng. destruct (Hall name b Hin Hng) as [Hb Hint].
    split; [now apply int_keyed_int_keys | exact Hb].
Qed.
End NormalizerLoop.

Lemma not_groups_true name : not_groups name = true <-> lower name <> "groups"%string.
Proof.
  unfold not_groups. destruct (String.eqb_spec (lower name) "groups"); simpl.
  - split; [discriminate | congruence].
  - split; [intros _; exact n | reflexivity].
Qed.

Lemma not_groups_false name : not_groups name = false <-> lower name = "groups"%string.
Proof.
  unfold not_groups. destruct (String.eqb_spec (lower name) "groups"); simpl.
  - split; [intros _; exact e | reflexivity].
  - split; [discriminate | congruence].
Qed.

(* ================================================================= *)
(** ** The normalizer: re-keying, malformed keys, integer keys *)

(** C2, as the code has it.  The normalizer returns no bucket whose
    name is "groups" in any letter case, and none that the input lacks;
    every other bucket of the input appears under its own name with its
    keys converted to integers and its values unchanged. *)
Theorem normalize_rekeys_and_drops_groups
        {V : Type} (raw out : Dict.t string (Dict.t key V)) :
  Dict.wf raw ->
  convert_raw_data_to_mesh_data raw = Ok out ->
  (forall name, lower name = "groups"%string -> Dict.get name out = None) /\
  (forall name, Dict.get name raw = None -> Dict.get name out = None) /\
  (forall name b,
     lower name <> "groups"%string -> Dict.get name raw = Some b ->
     exists b', Dict.get name out = Some b' /\ rekeyed b b').
Proof.
  unfold convert_raw_data_to_mesh_data, Dict.items. intros Hwf Hrun.
  split; [|split].
  - intros name Hg. apply not_groups_false in Hg.
    now rewrite (@normalize_entries_get_skip _ raw _ _ name Hrun (or_introl Hg)).
  - intros name Hnone. apply DictFacts.get_None in Hnone.
    now rewrite (@normalize_entries_get_skip _ raw _ _ name Hrun (or_intror Hnone)).
  - intros name b Hng Hb. apply not_groups_true in Hng.
    apply DictFacts.get_Some_In in Hb.
    destruct (@normalize_entries_get _ _ _ _ _ _ Hrun Hwf Hb Hng) as (l & Hl & Hout).
    exists (Dict.of_items l). split; [exact Hout | now apply int_keyed_rekeyed].
Qed.

Lemma scenario_B_raw_wf : Dict.wf scenario_B_raw.
Proof.
  unfold Dict.wf. vm_compute.
  repeat (constructor; [simpl; intuition discriminate|]). constructor.
Qed.

Lemma scenario_B_normalizes :
  convert_raw_data_to_mesh_data scenario_B_raw = Ok scenario_B_normalized.
Proof. vm_compute. reflexivity. Qed.

Lemma normalize_rekeys_and_drops_groups_witness :
  Dict.wf scenario_B_raw /\
  convert_raw_data_to_mesh_data scenario_B_raw = Ok scenario_B_normalized /\
  (forall name, lower name = "groups"%string ->
                Dict.get name scenario_B_normalized = None) /\
  (forall name, Dict.get name scenario_B_raw = None ->
                Dict.get name scenario_B_normalized = None) /\
  (forall name b,
     lower name <> "groups"%string -> Dict.get name scenario_B_raw = Some b ->
     exists b', Dict.get name scenario_B_normalized = Some b' /\ rekeyed b b').
Proof.
  split; [exact scenario_B_raw_wf|]. split; [exact scenario_B_normalizes|].
  exact (normalize_rekeys_and_drops_groups scenario_B_raw_wf scenario_B_normalizes).
Defined.

(** C2 as the specification states it fails: the raw dict of Scenario B
    has a [Groups] bucket, the normalizer's output has none. *)
Lemma normalize_drops_groups_bucket :
  convert_raw_data_to_mesh_data scenario_B_raw = Ok scenario_B_normalized /\
  Dict.get "Groups"%string scenario_B_raw =
    Some [(KStr "0", VSeq [VStr "Fixed"; VSeq [VInt 1]])] /\
  Dict.get "Groups"%string scenario_B_normalized = None.
Proof. vm_compute. auto. Qed.

(** C8. When a bucket that is not the group table has a key that
    [int()] does not accept, the normalizer raises [ValueError] on a
    string key of such a bucket that is no integer literal: the error
    propagates, and no key is replaced by a default. *)
Theorem normalize_malformed_key_raises
        {V : Type} (raw : Dict.t string (Dict.t key V)) name b k v :
  In (name, b) (Dict.items raw) -> lower name <> "groups"%string ->
  In (k, v) (Dict.items b) -> (forall z, py_int k <> Ok z) ->
  exists name' b' s v',
    In (name', b') (Dict.items raw) /\ lower name' <> "groups"%string /\
    In (KStr s, v') (Dict.items b') /\
    int_of_str s = Raise (ValueError s) /\
    convert_raw_data_to_mesh_data raw = Raise (ValueError s).
Proof.
  unfold Dict.items. intros Hin Hng Hk Hbad. apply not_groups_true in Hng.
  destruct (@normalize_entries_bad _ raw Dict.empty _ _ _ _ Hin Hng Hk Hbad) as [ex Hex].
  destruct (@normalize_entries_Raise_inv _ _ _ _ Hex)
    as (name' & b' & s & v' & Hin' & Hng' & Hk' & -> & Hs).
  exists name', b', s, v'. apply not_groups_true in Hng'. auto.
Qed.

Lemma malformed_key_not_integer : forall z, py_int (KStr "x") <> Ok z.
Proof. intros z. vm_compute. discriminate. Qed.

Lemma normalize_malformed_key_raises_witness :
  exists name' b' s v',
    In (name', b') (Dict.items malformed_raw) /\ lower name' <> "groups"%string /\
    In (KStr s, v') (Dict.items b') /\
    int_of_str s = Raise (ValueError s) /\
    convert_raw_data_to_mesh_data malformed_raw = Raise (ValueError s).
Proof.
  apply (@normalize_malformed_key_raises nat malformed_raw "Nodes"%string
           [(KStr "1", 0); (KStr "x", 1)] (KStr "x") 1).
  - now left.
  - vm_compute. discriminate.
  - right. now left.
  - exact malformed_key_not_integer.
Defined.

(** C9. A dict whose buckets, the group table apart, already have
    integer keys is accepted: the normalizer returns each such bucket
    as it is, same keys, same values.  In particular the normalizer
    applied to its own output returns that output. *)
Theorem normalize_accepts_integer_keys :
  (forall (V : Type) (raw : Dict.t string (Dict.t key V)),
     Dict.wf raw ->
     (forall name b, In (name, b) (Dict.items raw) -> lower name <> "groups"%string ->
                     Dict.wf b /\ int_keys b) ->
     exists out,
       convert_raw_data_to_mesh_data raw = Ok out /\
       forall name b, lower name <> "groups"%string ->
                      Dict.get name raw = Some b -> Dict.get name out = Some b) /\
  (forall (V : Type) (raw out : Dict.t string (Dict.t key V)),
     convert_raw_data_to_mesh_data raw = Ok out ->
     convert_raw_data_to_mesh_data out = Ok out).
Proof.
  split.
  - intros V raw Hwf Hall.
    exists (filter (fun nb => not_groups (fst nb)) raw). split.
    + apply normalize_int_keyed; [exact Hwf|].
      intros name b Hin Hng. apply (Hall name b Hin). now apply not_groups_true.
    + intros name b Hng Hb. apply not_groups_true in Hng.
      now rewrite (DictFacts.get_filter not_groups name raw), Hng.
  - intros V raw out Hrun.
    assert (Hout : normalized out).
    { apply (@normalize_entries_normalized V (Dict.items raw) Dict.empty out Hrun).
      split; [constructor | intros name b []]. }
    destruct Hout as [Hwf Hall].
    rewrite normalize_int_keyed; [|exact Hwf|].
    + f_equal. apply filter_all. intros [name b] Hin. now apply (Hall name b).
    + intros name b Hin _. now apply (Hall name b).
Qed.

Lemma scenario_B_normalized_wf : Dict.wf scenario_B_normalized.
Proof.
  unfold Dict.wf. vm_compute.
  repeat (constructor; [simpl; intuition discriminate|]). constructor.
Qed.

Lemma scenario_B_normalized_int_keys name b :
  In (name, b) (Dict.items scenario_B_normalized) -> lower name <> "groups"%string ->
  Dict.wf b /\ int_keys b.
Proof.
  intros Hin _.
  assert (Hn : normalized scenario_B_normalized).
  { apply (@normalize_entries_normalized value (Dict.items scenario_B_raw)
             Dict.empty scenario_B_normalized scenario_B_normalizes).
    split; [constructor | intros ? ? []]. }
  destruct Hn as [_ Hall]. now apply (Hall name b).
Qed.

Lemma normalize_accepts_integer_keys_witness :
  Dict.wf scenario_B_normalized /\
  exists out,
    convert_raw_data_to_mesh_data scenario_B_normalized = Ok out /\
    forall name b, lower name <> "groups"%string ->
                   Dict.get name scenario_B_normalized = Some b ->
                   Dict.get name out = Some b.
Proof.
  split; [exact scenario_B_normalized_wf|].
  exact (proj1 normalize_accepts_integer_keys value scenario_B_normalized
           scenario_B_normalized_wf scenario_B_normalized_int_keys).
Defined.

(* ================================================================= *)
(** ** Export, text codec, import: the round trip *)

Lemma stringified_wf (b : bucket) :
  Dict.wf b -> int_keys b ->
  Dict.wf (map (fun kv => (KStr (py_str (fst kv)), snd kv)) b).
Proof.
  unfold Dict.wf, Dict.keys. rewrite map_map. simpl.
  induction b as [|[k v] b IH]; simpl; intros Hnd Hint; [constructor|].
  inversion Hnd as [|? ? Hfresh Hnd']; subst.
  assert (Hint' : int_keys b) by (intros k' Hin; apply Hint; now right).
  constructor; [|now apply IH].
  intros Hin. apply in_map_iff in Hin as ([k' v'] & [= Heq] & Hin). simpl in Heq.
  assert (Hk' : In k' (map fst b)) by (apply (in_map fst) in Hin; exact Hin).
  destruct (Hint k (or_introl eq_refl)) as [z ->].
  destruct (Hint' k' Hk') as [z' ->]. simpl in Heq.
  apply str_of_int_inj in Heq. subst z'. contradiction.
Qed.

(** Re-keying a bucket whose integer keys were rendered as text gives
    the bucket back. *)
Lemma int_keyed_stringify_keys (b : bucket) :
  Dict.wf b -> int_keys b -> int_keyed (stringify_keys b) = Ok b.
Proof.
  intros Hwf Hint. unfold stringify_keys, Dict.items.
  rewrite (DictFacts.of_items_wf (stringified_wf Hwf Hint)).
  clear Hwf. induction b as [|[k v] b IH]; [reflexivity|]. simpl.
  destruct (Hint k (or_introl eq_refl)) as [z ->]. simpl.
  rewrite int_of_str_str_of_int. simpl.
  rewrite IH; [reflexivity|]. intros k' Hin. apply Hint. now right.
Qed.

(** A dict made from pairs with integer keys has distinct integer keys. *)
Lemma of_items_KInt {A V : Type} (kf : A -> Z) (vf : A -> V) (l : list A) :
  Dict.wf (Dict.of_items (map (fun a => (KInt (kf a), vf a)) l)) /\
  int_keys (Dict.of_items (map (fun a => (KInt (kf a), vf a)) l)).
Proof.
  split; [apply DictFacts.wf_of_items|].
  intros k Hin.
  apply (proj1 (DictFacts.keys_of_items _ k)) in Hin.
  rewrite map_map in Hin. apply in_map_iff in Hin as (a & <- & _).
  now exists (kf a).
Qed.

Lemma record_of_buckets femmesh st name b :
  In (name, b) (record_of femmesh st) -> Dict.wf b /\ int_keys b.
Proof.
  unfold record_of. simpl.
  intros Hin. repeat (destruct Hin as [[= <- <-]|Hin]); try destruct Hin;
    apply of_items_KInt.
Qed.

Lemma record_of_wf femmesh st : Dict.wf (record_of femmesh st).
Proof.
  unfold Dict.wf, record_of. simpl.
  repeat (constructor; [simpl; intuition discriminate|]). constructor.
Qed.

Lemma record_of_without_groups femmesh st name :
  Dict.get name (filter (fun nb => not_groups (fst nb)) (record_of femmesh st)) =
  if String.eqb name "Groups" then None else Dict.get name (record_of femmesh st).
Proof.
  rewrite (DictFacts.get_filter not_groups name (record_of femmesh st)).
  destruct (String.eqb_spec name "Groups") as [->|Hne]; [reflexivity|].
  destruct (not_groups name) eqn:Hng; [reflexivity|].
  symmetry. apply DictFacts.get_None. simpl.
  intros Hin.
  repeat (destruct Hin as [<-|Hin]); first [discriminate | congruence | destruct Hin].
Qed.

(** C1, as the code has it.  For a mesh the converter accepts, writing
    the dict with either codec, reading it back and normalizing it
    succeeds and gives back every bucket of the dict except [Groups],
    with the integer keys and the values it had; [Groups] is absent. *)
Theorem roundtrip_restores_all_but_groups femmesh r (c : codec) :
  convert_femmesh_to_dict femmesh = Ok r ->
  exists raw out,
    load c (dump c r) = Ok raw /\
    convert_raw_data_to_mesh_data raw = Ok out /\
    forall name,
      Dict.get name out =
      if String.eqb name "Groups" then None else Dict.get name r.
Proof.
  intros Hr. destruct (convert_Ok _ Hr) as (st & -> & _).
  exists (denotes (dump c (record_of femmesh st))),
         (filter (fun nb => not_groups (fst nb)) (record_of femmesh st)).
  split; [now destruct c|]. split; [|apply record_of_without_groups].
  unfold convert_raw_data_to_mesh_data, Dict.items, dump, denotes.
  apply (@normalize_entries_restores value stringify_keys (record_of femmesh st) Dict.empty).
  - apply record_of_wf.
  - intros name b Hin _. destruct (@record_of_buckets _ _ _ _ Hin) as [Hwf Hint].
    split; [now apply int_keyed_stringify_keys | exact Hwf].
Qed.

Lemma roundtrip_restores_all_but_groups_witness :
  convert_femmesh_to_dict (scenario_A 1 2 3) = Ok (scenario_A_record 1 2 3) /\
  exists raw out,
    load JSON (dump JSON (scenario_A_record 1 2 3)) = Ok raw /\
    convert_raw_data_to_mesh_data raw = Ok out /\
    forall name,
      Dict.get name out =
      if String.eqb name "Groups" then None
      else Dict.get name (scenario_A_record 1 2 3).
Proof.
  assert (Hr : convert_femmesh_to_dict (scenario_A 1 2 3) = Ok (scenario_A_record 1 2 3))
    by reflexivity.
  split; [exact Hr|]. exact (@roundtrip_restores_all_but_groups _ _ JSON Hr).
Defined.

(** C1 as the specification states it fails on Scenario A: after the
    round trip through JSON the dict is not equal to the converter's up
    to key type, for the converter's has a [Groups] bucket and the
    normalized one has none. *)
Lemma roundtrip_loses_groups :
  convert_femmesh_to_dict (scenario_A 1 2 3) = Ok (scenario_A_record 1 2 3) /\
  ~ (exists raw out,
       load JSON (dump JSON (scenario_A_record 1 2 3)) = Ok raw /\
       convert_raw_data_to_mesh_data raw = Ok out /\
       equal_up_to_key_type out (scenario_A_record 1 2 3)).
Proof.
  split; [reflexivity|]. intros (raw & out & Hraw & Hout & Heq).
  vm_compute in Hraw. injection Hraw as <-.
  vm_compute in Hout. injection Hout as <-.
  specialize (Heq "Groups"%string). vm_compute in Heq. exact Heq.
Qed.

(* ================================================================= *)
(** ** The entry points *)

(** C6. When the list given to the exporter does not hold exactly one
    object, or holds one that is no FEM mesh object, the exporter prints
    one error on the console and returns: no file is written, the
    document is untouched, nothing is raised. *)
Theorem export_rejects_bad_selection
        (has_yaml : bool) (objectslist : list DocumentObject) (fileString : string)
        (w : World) :
  bad_selection objectslist ->
  exists text,
    export has_yaml objectslist fileString w = (printed (PrintError text) w, Ok tt).
Proof.
  intros [Hlen|(obj & -> & Hkind)].
  - destruct objectslist as [|obj [|obj' rest]]; simpl in Hlen; try congruence;
      eexists; reflexivity.
  - destruct obj as [femmesh|]; [discriminate Hkind|]. eexists. reflexivity.
Qed.

Lemma export_rejects_bad_selection_witness :
  bad_selection [OtherObject; OtherObject] /\
  exists text,
    export true [OtherObject; OtherObject] "mesh.json" empty_world =
    (printed (PrintError text) empty_world, Ok tt).
Proof.
  assert (Hbad : bad_selection [OtherObject; OtherObject]) by (left; discriminate).
  split; [exact Hbad|].
  exact (export_rejects_bad_selection true "mesh.json" empty_world Hbad).
Defined.

(** C10, as the code has it.  With exactly one FEM mesh object and the
    empty path, the exporter converts the mesh and does nothing else:
    the console, the files and the document stay as they were; it
    returns when the conversion returns and raises what the conversion
    raises. *)
Theorem export_empty_path (has_yaml : bool) (femmesh : FemMesh) (w : World) :
  export has_yaml [FemMeshObject femmesh] "" w =
  (w, bind (convert_femmesh_to_dict femmesh) (fun _ => Ok tt)).
Proof.
  unfold export, mbind, subscript_list, get_FemMesh, lift. simpl.
  destruct (convert_femmesh_to_dict femmesh); reflexivity.
Qed.

(** C10 as stated fails: for the mesh of Scenario E the call with the
    empty path raises. *)
Lemma export_empty_path_raises :
  export true [FemMeshObject scenario_E] "" empty_world =
  (empty_world, Raise (KeyError 5)).
Proof. reflexivity. Qed.

(** On an extension the importer does not know, it prints the error and
    goes on: the empty dict is normalized and handed to the mesh
    constructor, and an object is added when that returns a mesh. *)
Lemma import_unknown_extension
      (has_yaml : bool) (make_femmesh : mesh_dict -> option FemMesh)
      (fileString : string) (w : World) :
  unknown_extension fileString ->
  import_yaml_json_mesh has_yaml make_femmesh fileString w =
  let w' :=
    printed (PrintMessage ("OK" ++ newline))
      (printed (PrintMessage "Converting indices to integer numbers ...")
         (printed (PrintError ("Unknown extension, please select other importer."
                               ++ newline)) w)) in
  match make_femmesh Dict.empty with
  | Some femmesh =>
      addObject (fst (splitext (snd (split fileString)))) femmesh w'
  | None => (w', Ok tt)
  end.
Proof.
  unfold unknown_extension, import_extension. intros (Hjson & Hyaml & Hyml).
  unfold import_yaml_json_mesh, is_yaml_extension.
  apply String.eqb_neq in Hjson, Hyaml, Hyml. rewrite Hjson, Hyaml, Hyml.
  destruct (make_femmesh Dict.empty) as [femmesh|] eqn:Hbuilt;
    cbv beta iota zeta delta [mbind Console_Print ret lift orb andb bind
      convert_raw_data_to_mesh_data normalize_entries Dict.items Dict.empty printed];
    match goal with
    | |- context [make_femmesh ?d] =>
        change (make_femmesh d) with (make_femmesh Dict.empty)
    end;
    rewrite Hbuilt; reflexivity.
Qed.

(** C7: what the code does on [mesh.xyz].  The error is printed, but the
    import does not stop there: two more messages follow, the mesh
    constructor is called with the empty dict, and with a constructor
    that returns a mesh object the document receives an object named
    [mesh]. *)
Theorem import_unknown_extension_goes_on :
  import_yaml_json_mesh true always_builds "mesh.xyz" empty_world =
  ({| console :=
        [PrintError ("Unknown extension, please select other importer." ++ newline);
         PrintMessage "Converting indices to integer numbers ...";
         PrintMessage ("OK" ++ newline)];
      files := Dict.empty;
      ActiveDocument := [("mesh"%string, FemMeshObject empty_mesh)] |},
   Ok tt).
Proof. reflexivity. Qed.

(* ================================================================= *)
(** ** The built-ins on sample inputs *)

Example int_of_str_samples :
  int_of_str " 12 " = Ok 12%Z /\
  int_of_str "-0_1" = Ok (-1)%Z /\
  int_of_str "007" = Ok 7%Z /\
  int_of_str "1__2" = Raise (ValueError "1__2") /\
  int_of_str "- 1" = Raise (ValueError "- 1") /\
  int_of_str "" = Raise (ValueError "").
Proof. repeat split; reflexivity. Qed.

(** Text given by its bytes.  The separator 28 is no white space for
    [int()], before or after the digits; a no-break space (194 160) is,
    and so is an ideographic space (227 128 128); the Arabic-Indic
    digits one and two (217 161, 217 162) read 12, also after a sign;
    the superscript two (194 178) is no decimal digit. *)
Example int_of_str_beyond_ascii :
  int_of_str (String "028" "1") = Raise (ValueError (String "028" "1")) /\
  int_of_str (String "1" (String "031" "")) =
    Raise (ValueError (String "1" (String "031" ""))) /\
  int_of_str (String "194" (String "160" "1")) = Ok 1%Z /\
  int_of_str (String "7" (String "227" (String "128" (String "128" "")))) = Ok 7%Z /\
  int_of_str (String "217" (String "161" (String "217" (String "162" "")))) = Ok 12%Z /\
  int_of_str (String "-" (String "217" (String "161" (String "217" (String "162" ""))))) =
    Ok (-12)%Z /\
  int_of_str (String "194" (String "178" "")) =
    Raise (ValueError (String "194" (String "178" ""))).
Proof. repeat split; reflexivity. Qed.

(** The normalizer on such keys: a key with a separator raises, a key
    of Arabic-Indic digits is converted. *)
Example normalize_beyond_ascii :
  convert_raw_data_to_mesh_data
    [("Nodes"%string, [(KStr (String "028" "1"), 5)])] =
    Raise (ValueError (String "028" "1")) /\
  convert_raw_data_to_mesh_data
    [("Nodes"%string,
      [(KStr (String "217" (String "161" (String "217" (String "162" "")))), 5)])] =
    Ok [("Nodes"%string, [(KInt 12, 5)])].
Proof. split; reflexivity. Qed.

Example str_of_int_samples :
  str_of_int 0 = "0"%string /\
  str_of_int 1024 = "1024"%string /\
  str_of_int (-37) = "-37"%string.
Proof. repeat split; reflexivity. Qed.

Example splitext_samples :
  splitext "a/b.c/mesh.JSON" = ("a/b.c/mesh", ".JSON")%string /\
  splitext ".bashrc" = (".bashrc", "")%string /\
  splitext "a.b/c" = ("a.b/c", "")%string /\
  splitext "x.tar.gz" = ("x.tar", ".gz")%string.
Proof. repeat split; reflexivity. Qed.

Example split_samples :
  split "a/b/c.json" = ("a/b", "c.json")%string /\
  split "/x" = ("/", "x")%string /\
  split "x" = ("", "x")%string.
Proof. repeat split; reflexivity. Qed.

Example xyz_is_unknown : unknown_extension "dir/mesh.xyz".
Proof. repeat split; vm_compute; discriminate. Qed.

(* ================================================================= *)
(** ** Paths: the extension and the base name *)

Local Open Scope Z_scope.

Lemma rfind_from_absent c p : forall i last,
  ~ In c p -> rfind_from c p i last = last.
Proof.
  induction p as [|a p IH]; intros i last Hn; [reflexivity|]. simpl.
  destruct (Ascii.eqb_spec a c) as [->|Hne]; [exfalso; apply Hn; now left|].
  apply IH. intros Hin. apply Hn. now right.
Qed.

Lemma rfind_from_last c x y : forall i last,
  ~ In c y -> rfind_from c (x ++ c :: y) i last = i + Z.of_nat (List.length x).
Proof.
  induction x as [|a x IH]; intros i last Hn; simpl.
  - rewrite Ascii.eqb_refl, rfind_from_absent by exact Hn. lia.
  - rewrite IH by exact Hn. lia.
Qed.

Lemma last_occurrence (c : ascii) (p : list ascii) :
  In c p -> exists x y, p = x ++ c :: y /\ ~ In c y.
Proof.
  induction p as [|a p IH]; intros Hin; [destruct Hin|].
  destruct (in_dec ascii_dec c p) as [Hp|Hp].
  - destruct (IH Hp) as (x & y & -> & Hy). now exists (a :: x), y.
  - destruct Hin as [->|Hin]; [|contradiction]. now exists [], p.
Qed.

(** [p.rfind(c)] is [-1] when [c] is not in [p], and otherwise the
    length of what precedes the last [c]. *)
Lemma rfind_cases (c : ascii) (p : list ascii) :
  (~ In c p /\ rfind c p = -1) \/
  (exists x y, p = x ++ c :: y /\ ~ In c y /\ rfind c p = Z.of_nat (List.length x)).
Proof.
  destruct (in_dec ascii_dec c p) as [Hp|Hp].
  - right. destruct (last_occurrence _ _ Hp) as (x & y & -> & Hy).
    exists x, y. split; [reflexivity|]. split; [exact Hy|].
    unfold rfind. now rewrite rfind_from_last.
  - left. split; [exact Hp|]. unfold rfind. now apply rfind_from_absent.
Qed.

Lemma skipn_past (x y : list ascii) (c : ascii) :
  skipn (Z.to_nat (Z.of_nat (List.length x) + 1)) (x ++ c :: y) = y.
Proof.
  replace (Z.to_nat (Z.of_nat (List.length x) + 1)) with (List.length x + 1)%nat by lia.
  rewrite skipn_app, skipn_all2 by lia.
  replace (List.length x + 1 - List.length x)%nat with 1%nat by lia. reflexivity.
Qed.

Lemma skipn_to (x y : list ascii) :
  skipn (Z.to_nat (Z.of_nat (List.length x))) (x ++ y) = y.
Proof.
  rewrite Nat2Z.id, skipn_app, skipn_all, Nat.sub_diag. reflexivity.
Qed.

Lemma firstn_to (x y : list ascii) :
  firstn (Z.to_nat (Z.of_nat (List.length x))) (x ++ y) = x.
Proof.
  rewrite Nat2Z.id, firstn_app, firstn_all, Nat.sub_diag. simpl. apply app_nil_r.
Qed.

(** The extension of a path, on its characters. *)
Lemma splitext_snd (path : string) :
  snd (splitext path) =
  let p := chars path in
  if (rfind "/" p <? rfind "." p)
     && existsb (fun c => negb (is_dot c)) (slice (rfind "/" p + 1) (rfind "." p) p)
  then string_of_list_ascii (slice_from (rfind "." p) p)
  else EmptyString.
Proof.
  unfold splitext. cbv zeta.
  destruct ((rfind "/" (chars path) <? rfind "." (chars path))
            && existsb _ _); reflexivity.
Qed.

Lemma chars_of_tail (path : string) :
  chars (snd (split path)) = slice_from (rfind "/" (chars path) + 1) (chars path).
Proof. unfold split. cbv zeta. simpl snd. apply chars_string_of_list. Qed.

Lemma not_in_app (c : ascii) (x y : list ascii) :
  ~ In c (x ++ y) <-> ~ In c x /\ ~ In c y.
Proof. rewrite in_app_iff. tauto. Qed.

(** The extension of a path is the extension of its last component. *)
Lemma splitext_of_tail (path : string) :
  snd (splitext (snd (split path))) = snd (splitext path).
Proof.
  rewrite !splitext_snd. cbv zeta. rewrite chars_of_tail.
  set (p := chars path).
  destruct (rfind_cases "/" p) as [[Hns Hs]|(pre & post & Hp & Hpost & Hs)].
  - (* no slash: the last component is the path *)
    rewrite Hs. change (-1 + 1) with 0. unfold slice_from. simpl skipn.
    rewrite ?Hs. reflexivity.
  - rewrite Hs, Hp.
    assert (Htail : slice_from (Z.of_nat (List.length pre) + 1)
                      (pre ++ "/"%char :: post) = post) by apply skipn_past.
    rewrite !Htail.
    assert (Hsep : rfind "/" post = -1).
    { destruct (rfind_cases "/" post) as [[_ H]|(x & y & Hx & _)]; [exact H|].
      exfalso. apply Hpost. rewrite Hx. apply in_or_app. right. now left. }
    rewrite Hsep. change (-1 + 1) with 0.
    destruct (rfind_cases "." post) as [[Hnd Hd]|(a & b & Hab & Hb & Hd)].
    + (* no dot after the last slash *)
      rewrite Hd. simpl.
      destruct (rfind_cases "." pre) as [[Hnp Hdp]|(a & b & Hab & Hb & Hdp)].
      * assert (Hall : rfind "." (pre ++ "/"%char :: post) = -1).
        { unfold rfind. apply rfind_from_absent. rewrite not_in_app. split; [exact Hnp|].
          intros [Heq|Hin]; [discriminate | contradiction]. }
        rewrite Hall. destruct (Z.ltb_spec (Z.of_nat (List.length pre)) (-1)); [lia|].
        reflexivity.
      * assert (Hall : rfind "." (pre ++ "/"%char :: post) = Z.of_nat (List.length a)).
        { rewrite Hab, <- app_assoc. simpl. unfold rfind. rewrite rfind_from_last; [lia|].
          rewrite not_in_app. split; [exact Hb|].
          intros [Heq|Hin]; [discriminate | contradiction]. }
        rewrite Hall.
        assert (Hlen : Z.of_nat (List.length a) < Z.of_nat (List.length pre)).
        { rewrite Hab, length_app. simpl. lia. }
        destruct (Z.ltb_spec (Z.of_nat (List.length pre)) (Z.of_nat (List.length a)));
          [lia | reflexivity].
    + (* the last dot comes after the last slash *)
      rewrite Hd.
      assert (Hall : rfind "." (pre ++ "/"%char :: post) =
                     Z.of_nat (List.length (pre ++ "/"%char :: a))).
      { rewrite Hab. change (pre ++ "/"%char :: a ++ "."%char :: b)
          with (pre ++ ("/"%char :: a) ++ "."%char :: b).
        rewrite app_assoc. unfold rfind. rewrite rfind_from_last by exact Hb. lia. }
      rewrite Hall.
      assert (Hlt : Z.of_nat (List.length pre) <
                    Z.of_nat (List.length (pre ++ "/"%char :: a))).
      { rewrite length_app. simpl. lia. }
      destruct (Z.ltb_spec (Z.of_nat (List.length pre))
                  (Z.of_nat (List.length (pre ++ "/"%char :: a)))); [|lia].
      destruct (Z.ltb_spec (-1) (Z.of_nat (List.length a))); [|lia].
      simpl andb.
      assert (Hmid : slice (Z.of_nat (List.length pre) + 1)
                       (Z.of_nat (List.length (pre ++ "/"%char :: a)))
                       (pre ++ "/"%char :: post) = a).
      { unfold slice. rewrite skipn_past, Hab.
        replace (Z.of_nat (List.length (pre ++ "/"%char :: a)) -
                 (Z.of_nat (List.length pre) + 1)) with (Z.of_nat (List.length a))
          by (rewrite length_app; simpl; lia).
        apply firstn_to. }
      assert (Hmid' : slice 0 (Z.of_nat (List.length a)) post = a).
      { unfold slice. simpl skipn. rewrite Z.sub_0_r, Hab. apply firstn_to. }
      rewrite Hmid, Hmid'.
      destruct (existsb (fun c => negb (is_dot c)) a); [|reflexivity].
      f_equal. unfold slice_from. rewrite Hab. rewrite skipn_to.
      change (pre ++ "/"%char :: a ++ "."%char :: b)
        with (pre ++ ("/"%char :: a) ++ "."%char :: b).
      rewrite app_assoc. now rewrite skipn_to.
Qed.

Local Close Scope Z_scope.

(* ================================================================= *)
(** ** The exporter on a mesh object *)

Lemma codec_for_not_empty has_yaml : codec_for has_yaml "" = None.
Proof. destruct has_yaml; reflexivity. Qed.

(** The exporter on one FEM mesh object, branch by branch. *)
Lemma export_mesh_object has_yaml femmesh path w :
  export has_yaml [FemMeshObject femmesh] path w =
  match convert_femmesh_to_dict femmesh with
  | Raise e => (w, Raise e)
  | Ok r =>
      match codec_for has_yaml (export_extension path) with
      | Some c => (written path (dump c r) w, Ok tt)
      | None => (w, Ok tt)
      end
  end.
Proof.
  unfold export, mbind, subscript_list, get_FemMesh, lift. simpl.
  destruct (convert_femmesh_to_dict femmesh) as [r|e]; [|reflexivity].
  unfold codec_for, export_extension, is_yaml_extension.
  destruct (String.eqb_spec path "") as [->|Hne]; simpl.
  - now destruct has_yaml.
  - destruct (String.eqb (lower (snd (splitext path))) ".json"); [reflexivity|].
    destruct ((String.eqb (lower (snd (splitext path))) ".yaml"
               || String.eqb (lower (snd (splitext path))) ".yml") && has_yaml);
      reflexivity.
Qed.

(** On any other selection the exporter prints an error and returns. *)
Lemma export_other_selection has_yaml objectslist path w :
  (forall femmesh, objectslist <> [FemMeshObject femmesh]) ->
  exists text, export has_yaml objectslist path w = (printed (PrintError text) w, Ok tt).
Proof.
  intros Hsel. destruct objectslist as [|[femmesh|] [|obj' rest]];
    try (eexists; reflexivity).
  destruct (Hsel femmesh eq_refl).
Qed.

Lemma selection_cases (objectslist : list DocumentObject) :
  (exists femmesh, objectslist = [FemMeshObject femmesh]) \/
  (forall femmesh, objectslist <> [FemMeshObject femmesh]).
Proof.
  destruct objectslist as [|[femmesh|] [|obj' rest]];
    try (right; intros femmesh'; discriminate).
  left. now exists femmesh.
Qed.

(** X1. Export of one FEM mesh object whose mesh converts, to a path
    whose lower-cased extension selects a codec ([.json], or [.yaml] /
    [.yml] with the YAML library present): the file at that path now
    holds the converted dict written with that codec, whatever it held
    before; nothing is printed, the document is untouched, the call
    returns. *)
Theorem export_writes_selected_codec has_yaml femmesh r c path w :
  convert_femmesh_to_dict femmesh = Ok r ->
  codec_for has_yaml (export_extension path) = Some c ->
  export has_yaml [FemMeshObject femmesh] path w = (written path (dump c r) w, Ok tt) /\
  Dict.get path (files (written path (dump c r) w)) = Some (dump c r).
Proof.
  intros Hr Hc. rewrite export_mesh_object, Hr, Hc. split; [reflexivity|].
  simpl. rewrite DictFacts.get_set. now rewrite DictFacts.eqb_refl.
Qed.

Lemma scenario_A_converts_123 :
  convert_femmesh_to_dict (scenario_A 1 2 3) = Ok (scenario_A_record 1 2 3).
Proof. reflexivity. Qed.

Lemma export_writes_selected_codec_witness :
  convert_femmesh_to_dict (scenario_A 1 2 3) = Ok (scenario_A_record 1 2 3) /\
  codec_for true (export_extension "out/Mesh.YML") = Some YAML /\
  export true [FemMeshObject (scenario_A 1 2 3)] "out/Mesh.YML" empty_world =
    (written "out/Mesh.YML" (dump YAML (scenario_A_record 1 2 3)) empty_world, Ok tt) /\
  Dict.get "out/Mesh.YML"%string
    (files (written "out/Mesh.YML" (dump YAML (scenario_A_record 1 2 3)) empty_world)) =
  Some (dump YAML (scenario_A_record 1 2 3)).
Proof.
  assert (Hc : codec_for true (export_extension "out/Mesh.YML") = Some YAML)
    by reflexivity.
  split; [exact scenario_A_converts_123|]. split; [exact Hc|].
  exact (@export_writes_selected_codec true _ _ _ _ empty_world
           scenario_A_converts_123 Hc).
Defined.

(** X2. Export of one FEM mesh object whose mesh converts, to a path
    whose extension selects no codec (an unknown extension, no
    extension, or [.yaml] / [.yml] without the YAML library): the call
    returns and leaves the world as it was; no error is printed and no
    file is written. *)
Theorem export_without_codec_is_silent has_yaml femmesh r path w :
  convert_femmesh_to_dict femmesh = Ok r ->
  codec_for has_yaml (export_extension path) = None ->
  export has_yaml [FemMeshObject femmesh] path w = (w, Ok tt).
Proof. intros Hr Hc. now rewrite export_mesh_object, Hr, Hc. Qed.

Lemma export_without_codec_is_silent_witness :
  convert_femmesh_to_dict (scenario_A 1 2 3) = Ok (scenario_A_record 1 2 3) /\
  codec_for false (export_extension "out/mesh.yaml") = None /\
  export false [FemMeshObject (scenario_A 1 2 3)] "out/mesh.yaml" empty_world =
    (empty_world, Ok tt).
Proof.
  assert (Hc : codec_for false (export_extension "out/mesh.yaml") = None)
    by reflexivity.
  split; [exact scenario_A_converts_123|]. split; [exact Hc|].
  exact (@export_without_codec_is_silent false _ _ _ empty_world
           scenario_A_converts_123 Hc).
Defined.

(** X3. Whatever it is given, the exporter leaves the document alone,
    leaves every file other than the one at the given path alone, and
    adds at most one line, an error, to the console. *)
Theorem export_frame has_yaml objectslist path w :
  let w' := fst (export has_yaml objectslist path w) in
  ActiveDocument w' = ActiveDocument w /\
  (forall other, other <> path ->
                 Dict.get other (files w') = Dict.get other (files w)) /\
  (console w' = console w \/
   exists text, console w' = console w ++ [PrintError text] /\ files w' = files w).
Proof.
  destruct (selection_cases objectslist) as [[femmesh ->]|Hsel].
  - rewrite export_mesh_object.
    destruct (convert_femmesh_to_dict femmesh) as [r|e]; simpl; [|auto].
    destruct (codec_for has_yaml (export_extension path)) as [c|]; simpl; [|auto].
    split; [reflexivity|]. split; [|now left].
    intros other Hne. rewrite DictFacts.get_set. now rewrite (DictFacts.eqb_neq Hne).
  - destruct (export_other_selection has_yaml path w Hsel) as [text ->]. simpl.
    split; [reflexivity|]. split; [reflexivity|]. right. now exists text.
Qed.

(* ================================================================= *)
(** ** The importer *)

(** The importer, by the codec its extension selects. *)
Lemma import_dispatch has_yaml make_femmesh path w :
  import_yaml_json_mesh has_yaml make_femmesh path w =
  match codec_for has_yaml (import_extension path) with
  | Some c => import_with c make_femmesh path w
  | None => import_without make_femmesh path w
  end.
Proof.
  unfold import_yaml_json_mesh, codec_for, import_extension, is_yaml_extension,
    import_with, import_without, mesh_name, attach, converted, converting,
    unknown_extension_error.
  cbv zeta.
  destruct (String.eqb (lower (snd (splitext (snd (split path))))) ".json").
  - unfold mbind, read_file, lift, Console_Print, ret, printed.
    destruct (Dict.get path (files w)) as [t|]; [|reflexivity].
    destruct (load JSON t) as [raw|e]; [|reflexivity].
    destruct (convert_raw_data_to_mesh_data raw) as [out|e]; [|reflexivity].
    destruct (make_femmesh out); reflexivity.
  - destruct ((String.eqb (lower (snd (splitext (snd (split path))))) ".yaml"
               || String.eqb (lower (snd (splitext (snd (split path))))) ".yml")
              && has_yaml).
    + unfold mbind, read_file, lift, Console_Print, ret, printed.
      destruct (Dict.get path (files w)) as [t|]; [|reflexivity].
      destruct (load YAML t) as [raw|e]; [|reflexivity].
      destruct (convert_raw_data_to_mesh_data raw) as [out|e]; [|reflexivity].
      destruct (make_femmesh out); reflexivity.
    + destruct (make_femmesh Dict.empty) as [femmesh|] eqn:Hbuilt;
        cbv beta iota zeta delta [mbind Console_Print ret lift bind
          convert_raw_data_to_mesh_data normalize_entries Dict.items Dict.empty printed];
        match goal with
        | |- context [make_femmesh ?d] =>
            change (make_femmesh d) with (make_femmesh Dict.empty)
        end;
        rewrite Hbuilt; reflexivity.
Qed.

(** What the importer may do to the world. *)
Lemma attach_effects name built w :
  let w' := fst (attach name built w) in
  snd (attach name built w) = Ok tt /\
  files w' = files w /\ console w' = console w /\
  (ActiveDocument w' = ActiveDocument w \/
   exists femmesh, built = Some femmesh /\
                   ActiveDocument w' = ActiveDocument w ++ [(name, FemMeshObject femmesh)]).
Proof.
  destruct built as [femmesh|]; simpl; repeat split; auto.
  right. now exists femmesh.
Qed.

Lemma import_effects has_yaml make_femmesh path w :
  let w' := fst (import_yaml_json_mesh has_yaml make_femmesh path w) in
  let r := snd (import_yaml_json_mesh has_yaml make_femmesh path w) in
  files w' = files w /\
  (exists lines, console w' = console w ++ lines) /\
  (ActiveDocument w' = ActiveDocument w \/
   r = Ok tt /\
   exists femmesh,
     ActiveDocument w' = ActiveDocument w ++ [(mesh_name path, FemMeshObject femmesh)]) /\
  (forall e, r = Raise e ->
     ActiveDocument w' = ActiveDocument w /\
     ((e = IOError path /\ w' = w) \/ exists s, e = ValueError s)).
Proof.
  cbv zeta. rewrite import_dispatch.
  assert (Hattach : forall w0 built,
            files w0 = files w -> ActiveDocument w0 = ActiveDocument w ->
            (exists lines, console w0 = console w ++ lines) ->
            let w' := fst (attach (mesh_name path) built w0) in
            let r := snd (attach (mesh_name path) built w0) in
            files w' = files w /\
            (exists lines, console w' = console w ++ lines) /\
            (ActiveDocument w' = ActiveDocument w \/
             r = Ok tt /\
             exists femmesh,
               ActiveDocument w' =
               ActiveDocument w ++ [(mesh_name path, FemMeshObject femmesh)]) /\
            (forall e, r = Raise e ->
               ActiveDocument w' = ActiveDocument w /\
               ((e = IOError path /\ w' = w) \/ exists s, e = ValueError s))).
  { intros w0 built Hf Hd Hc. cbv zeta.
    destruct (attach_effects (mesh_name path) built w0) as (Hr & Hf' & Hc' & Hd').
    rewrite Hr, Hf', Hc', <- Hd, <- Hf. split; [reflexivity|]. split; [exact Hc|].
    split; [|discriminate].
    destruct Hd' as [Hsame|(femmesh & _ & Hadd)]; [now left|].
    right. split; [reflexivity|]. now exists femmesh. }
  destruct (codec_for has_yaml (import_extension path)) as [c|].
  - unfold import_with.
    destruct (Dict.get path (files w)) as [t|].
    + destruct (load c t) as [raw|e] eqn:Hload.
      * destruct (convert_raw_data_to_mesh_data raw) as [out|e] eqn:Hnorm.
        -- apply Hattach; [reflexivity | reflexivity |].
           unfold converted, printed. simpl. rewrite <- app_assoc. eauto.
        -- simpl. split; [reflexivity|]. split; [eauto|]. split; [now left|].
           intros e' [= <-]. split; [reflexivity|]. right.
           unfold convert_raw_data_to_mesh_data in Hnorm.
           apply normalize_entries_Raise_inv in Hnorm
             as (name & b & s & v & _ & _ & _ & -> & _). now exists s.
      * simpl. split; [reflexivity|]. split; [exists []; now rewrite app_nil_r|].
        split; [now left|]. intros e' [= <-]. split; [reflexivity|]. right.
        unfold load in Hload. destruct c, (written_by t); try discriminate.
        injection Hload as <-. eauto.
    + simpl. split; [reflexivity|]. split; [exists []; now rewrite app_nil_r|].
      split; [now left|]. intros e' [= <-]. split; [reflexivity|]. now left.
  - unfold import_without. apply Hattach; [reflexivity | reflexivity |].
    unfold converted, printed. simpl. rewrite <- !app_assoc. eauto.
Qed.

Lemma import_extension_export (path : string) :
  import_extension path = export_extension path.
Proof. unfold import_extension, export_extension. now rewrite splitext_of_tail. Qed.

(** X5. Both entry points see the same extension, and so select the
    same codec, for every path: the exporter splits the extension off
    the whole path, the importer off its last component. *)
Theorem entry_points_agree_on_extension (has_yaml : bool) (path : string) :
  lower (snd (splitext (snd (split path)))) = lower (snd (splitext path)) /\
  codec_for has_yaml (import_extension path) = codec_for has_yaml (export_extension path).
Proof.
  split; [now rewrite splitext_of_tail | now rewrite import_extension_export].
Qed.

(** The dict of the converter, written and normalized. *)
Lemma normalize_dump femmesh r c :
  convert_femmesh_to_dict femmesh = Ok r ->
  convert_raw_data_to_mesh_data (denotes (dump c r)) =
  Ok (filter (fun nb => not_groups (fst nb)) r) /\
  forall name,
    Dict.get name (filter (fun nb => not_groups (fst nb)) r) =
    if String.eqb name "Groups" then None else Dict.get name r.
Proof.
  intros Hr. destruct (convert_Ok _ Hr) as (st & -> & _).
  split; [|apply record_of_without_groups].
  unfold convert_raw_data_to_mesh_data, Dict.items, dump, denotes.
  apply (@normalize_entries_restores value stringify_keys (record_of femmesh st) Dict.empty).
  - apply record_of_wf.
  - intros name b Hin _. destruct (@record_of_buckets _ _ _ _ Hin) as [Hwf Hint].
    split; [now apply int_keyed_stringify_keys | exact Hwf].
Qed.

(** X6. Export followed by import of the same path.  When the mesh
    converts and the extension selects a codec, the importer reads the
    file the exporter wrote, prints its two progress messages, and hands
    the mesh constructor the converter's dict without its [Groups]
    bucket, every other bucket with its integer keys and values; the
    object, if one is built, is named after the file. *)
Theorem export_then_import has_yaml make_femmesh femmesh r c path w :
  convert_femmesh_to_dict femmesh = Ok r ->
  codec_for has_yaml (export_extension path) = Some c ->
  exists out,
    (forall name,
       Dict.get name out =
       if String.eqb name "Groups" then None else Dict.get name r) /\
    import_yaml_json_mesh has_yaml make_femmesh path
      (fst (export has_yaml [FemMeshObject femmesh] path w)) =
    attach (mesh_name path) (make_femmesh out)
           (converted (written path (dump c r) w)).
Proof.
  intros Hr Hc. destruct (@normalize_dump _ _ c Hr) as [Hnorm Hget].
  exists (filter (fun nb => not_groups (fst nb)) r). split; [exact Hget|].
  rewrite export_mesh_object, Hr, Hc. simpl fst.
  rewrite import_dispatch, import_extension_export, Hc.
  unfold import_with. simpl files.
  rewrite DictFacts.get_set, DictFacts.eqb_refl.
  assert (Hload : load c (dump c r) = Ok (denotes (dump c r))) by now destruct c.
  now rewrite Hload, Hnorm.
Qed.

Lemma export_then_import_witness :
  convert_femmesh_to_dict (scenario_A 1 2 3) = Ok (scenario_A_record 1 2 3) /\
  codec_for true (export_extension "dir/mesh.json") = Some JSON /\
  exists out,
    (forall name,
       Dict.get name out =
       if String.eqb name "Groups" then None
       else Dict.get name (scenario_A_record 1 2 3)) /\
    import_yaml_json_mesh true always_builds "dir/mesh.json"
      (fst (export true [FemMeshObject (scenario_A 1 2 3)] "dir/mesh.json" empty_world)) =
    attach (mesh_name "dir/mesh.json") (always_builds out)
           (converted (written "dir/mesh.json"
                         (dump JSON (scenario_A_record 1 2 3)) empty_world)).
Proof.
  assert (Hc : codec_for true (export_extension "dir/mesh.json") = Some JSON)
    by reflexivity.
  split; [exact scenario_A_converts_123|]. split; [exact Hc|].
  exact (@export_then_import true always_builds _ _ _ _ empty_world
           scenario_A_converts_123 Hc).
Defined.

(** X7. Import of a path whose extension selects a codec, when there is
    no file at that path: the call raises [IOError] at once; nothing is
    printed, no object is added, the mesh constructor is not called. *)
Theorem import_missing_file has_yaml make_femmesh c path w :
  codec_for has_yaml (import_extension path) = Some c ->
  Dict.get path (files w) = None ->
  import_yaml_json_mesh has_yaml make_femmesh path w = (w, Raise (IOError path)).
Proof.
  intros Hc Hnone. rewrite import_dispatch, Hc. unfold import_with. now rewrite Hnone.
Qed.

Lemma import_missing_file_witness :
  codec_for false (import_extension "dir/Mesh.JSON") = Some JSON /\
  Dict.get "dir/Mesh.JSON"%string (files empty_world) = None /\
  import_yaml_json_mesh false always_builds "dir/Mesh.JSON" empty_world =
    (empty_world, Raise (IOError "dir/Mesh.JSON")).
Proof.
  assert (Hc : codec_for false (import_extension "dir/Mesh.JSON") = Some JSON)
    by reflexivity.
  assert (Hf : Dict.get "dir/Mesh.JSON"%string (files empty_world) = None)
    by reflexivity.
  split; [exact Hc|]. split; [exact Hf|].
  exact (@import_missing_file false always_builds _ _ _ Hc Hf).
Defined.

(** X8. Import of a file whose dict has, in a bucket other than the
    group table, a key that [int()] does not accept: the importer
    prints its first progress message, then the normalizer's
    [ValueError] escapes; the closing [OK] is not printed, the mesh
    constructor is not called and no object is added. *)
Theorem import_malformed_key has_yaml make_femmesh c path w t raw name b k v :
  codec_for has_yaml (import_extension path) = Some c ->
  Dict.get path (files w) = Some t ->
  load c t = Ok raw ->
  In (name, b) (Dict.items raw) -> lower name <> "groups"%string ->
  In (k, v) (Dict.items b) -> (forall z, py_int k <> Ok z) ->
  exists s,
    import_yaml_json_mesh has_yaml make_femmesh path w =
    (printed converting w, Raise (ValueError s)).
Proof.
  intros Hc Hfile Hload Hin Hng Hk Hbad.
  rewrite import_dispatch, Hc. unfold import_with. rewrite Hfile, Hload.
  apply not_groups_true in Hng.
  destruct (@normalize_entries_bad _ raw Dict.empty _ _ _ _ Hin Hng Hk Hbad) as [ex Hex].
  destruct (@normalize_entries_Raise_inv _ _ _ _ Hex)
    as (_ & _ & s & _ & _ & _ & _ & -> & _).
  exists s. unfold convert_raw_data_to_mesh_data, Dict.items. now rewrite Hex.
Qed.

Lemma import_malformed_key_witness :
  exists s,
    import_yaml_json_mesh true always_builds "m.json" malformed_world =
    (printed converting malformed_world, Raise (ValueError s)).
Proof.
  apply (@import_malformed_key true always_builds JSON "m.json" malformed_world
           malformed_text (denotes malformed_text) "Nodes"%string
           [(KStr "x", VSeq [])] (KStr "x") (VSeq [])).
  - reflexivity.
  - reflexivity.
  - reflexivity.
  - now left.
  - vm_compute. discriminate.
  - now left.
  - exact malformed_key_not_integer.
Defined.

(** X9. Without the YAML library a [.yaml] or [.yml] path is handled
    like an unknown extension: the file is not opened (whether it
    exists makes no difference), the unknown-extension error is
    printed, and the import goes on with the empty dict as for any
    unknown extension. *)
Theorem import_yaml_without_library make_femmesh path w :
  yaml_extension (import_extension path) ->
  import_yaml_json_mesh false make_femmesh path w =
  attach (mesh_name path) (make_femmesh Dict.empty)
         (converted (printed unknown_extension_error w)).
Proof.
  intros Hy. rewrite import_dispatch.
  assert (Hc : codec_for false (import_extension path) = None).
  { unfold codec_for. destruct Hy as [-> | ->]; reflexivity. }
  now rewrite Hc.
Qed.

Lemma import_yaml_without_library_witness :
  yaml_extension (import_extension "dir/mesh.yml") /\
  import_yaml_json_mesh false always_builds "dir/mesh.yml" empty_world =
  attach (mesh_name "dir/mesh.yml") (always_builds Dict.empty)
         (converted (printed unknown_extension_error empty_world)).
Proof.
  assert (Hy : yaml_extension (import_extension "dir/mesh.yml")) by (right; reflexivity).
  split; [exact Hy|].
  exact (@import_yaml_without_library always_builds "dir/mesh.yml" empty_world Hy).
Defined.

(** X10. Whatever it is given, the importer writes no file, only adds
    lines to the console, and changes the document at most by
    appending one object, named after the last component of the path
    without its extension; it appends one only when it returns. *)
Theorem import_frame has_yaml make_femmesh path w :
  let w' := fst (import_yaml_json_mesh has_yaml make_femmesh path w) in
  files w' = files w /\
  (exists lines, console w' = console w ++ lines) /\
  (ActiveDocument w' = ActiveDocument w \/
   snd (import_yaml_json_mesh has_yaml make_femmesh path w) = Ok tt /\
   exists femmesh,
     ActiveDocument w' = ActiveDocument w ++ [(mesh_name path, FemMeshObject femmesh)]).
Proof.
  destruct (import_effects has_yaml make_femmesh path w) as (Hf & Hc & Hd & _).
  cbv zeta. auto.
Qed.

(* ================================================================= *)
(** ** The normalizer: order of evaluation, colliding keys, groups *)

Lemma find_app {A : Type} (f : A -> bool) (l1 l2 : list A) :
  find f (l1 ++ l2) =
  match find f l1 with Some a => Some a | None => find f l2 end.
Proof.
  induction l1 as [|a l1 IH]; simpl; [reflexivity|]. now destruct (f a).
Qed.

Section NormalizerOrder.
Context {V : Type}.
Implicit Types (b : Dict.t key V) (es acc : Dict.t string (Dict.t key V)).

Lemma parses_false k :
  parses k = false -> exists s, k = KStr s /\ py_int k = Raise (ValueError s).
Proof.
  unfold parses. destruct (py_int k) as [z|ex] eqn:Hk; [discriminate|]. intros _.
  apply py_int_Raise in Hk as Hs. destruct Hs as (s & -> & -> & _). now exists s.
Qed.

(** The comprehension stops at the first key [int()] refuses. *)
Lemma int_keyed_first b :
  match find (fun k => negb (parses k)) (Dict.keys b) with
  | Some k => exists s, k = KStr s /\ int_keyed b = Raise (ValueError s)
  | None => exists l, int_keyed b = Ok l
  end.
Proof.
  induction b as [|[k v] b IH]; simpl; [now exists []|].
  destruct (parses k) eqn:Hk; simpl.
  - unfold parses in Hk. destruct (py_int k) as [z|]; [|discriminate]. simpl.
    destruct (find (fun k => negb (parses k)) (Dict.keys b)) as [k'|].
    + destruct IH as (s & -> & ->). now exists s.
    + destruct IH as [l ->]. simpl. eauto.
  - destruct (parses_false _ Hk) as (s & -> & Hs). exists s. split; [reflexivity|].
    simpl in Hs. simpl. now rewrite Hs.
Qed.

Lemma normalize_entries_first es : forall acc,
  match find (fun k => negb (parses k)) (converted_keys es) with
  | Some k => exists s, k = KStr s /\ normalize_entries es acc = Raise (ValueError s)
  | None => exists out, normalize_entries es acc = Ok out
  end.
Proof.
  induction es as [|[name b] es IH]; intros acc; [simpl; eauto|].
  rewrite normalize_entries_cons. unfold converted_keys. simpl flat_map.
  fold (converted_keys es). destruct (not_groups name); [|apply IH].
  rewrite find_app. pose proof (int_keyed_first b) as Hb.
  destruct (find (fun k => negb (parses k)) (Dict.keys b)) as [k|].
  - destruct Hb as (s & -> & ->). now exists s.
  - destruct Hb as [l ->]. simpl. apply IH.
Qed.

Lemma normalize_entries_skips_groups es : forall acc,
  normalize_entries (filter (fun nb => not_groups (fst nb)) es) acc =
  normalize_entries es acc.
Proof.
  induction es as [|[name b] es IH]; intros acc; [reflexivity|]. simpl filter.
  destruct (not_groups name) eqn:Hng.
  - rewrite !normalize_entries_cons, Hng.
    destruct (int_keyed b); simpl; [apply IH | reflexivity].
  - rewrite normalize_entries_cons, Hng. apply IH.
Qed.

Lemma int_keyed_app (b1 b2 : Dict.t key V) l :
  int_keyed (b1 ++ b2) = Ok l ->
  exists l1 l2, int_keyed b1 = Ok l1 /\ int_keyed b2 = Ok l2 /\ l = l1 ++ l2.
Proof.
  revert l. induction b1 as [|[k v] b1 IH]; simpl; intros l Hl.
  - exists [], l. auto.
  - destruct (py_int k) as [z|]; simpl in Hl; [|discriminate].
    destruct (int_keyed (b1 ++ b2)) as [l'|]; simpl in Hl; [|discriminate].
    injection Hl as <-. destruct (IH l' eq_refl) as (l1 & l2 & -> & -> & ->).
    exists ((KInt z, v) :: l1), l2. auto.
Qed.

(** In the rebuilt bucket an integer has the value of the last entry
    whose key denotes it. *)
Lemma int_keyed_last (pre post : Dict.t key V) k v z l :
  int_keyed (pre ++ (k, v) :: post) = Ok l ->
  py_int k = Ok z ->
  (forall k' v', In (k', v') post -> py_int k' <> Ok z) ->
  Dict.get (KInt z) (Dict.of_items l) = Some v.
Proof.
  intros Hl Hk Hpost.
  destruct (int_keyed_app _ _ Hl) as (l1 & l2 & Hl1 & Hl2 & ->).
  simpl in Hl2. rewrite Hk in Hl2. simpl in Hl2.
  destruct (int_keyed post) as [l3|] eqn:Hl3; simpl in Hl2; [|discriminate].
  injection Hl2 as <-.
  rewrite DictFacts.get_of_items, rev_app_distr. simpl rev.
  rewrite <- app_assoc, DictFacts.get_app.
  assert (Hnone : Dict.get (KInt z) (rev l3) = None).
  { apply DictFacts.get_None. unfold Dict.keys. rewrite map_rev, <- in_rev.
    intros Hin. apply in_map_iff in Hin as ([k' v'] & Hk' & Hin). simpl in Hk'. subst k'.
    destruct (int_keyed_In_r _ _ _ Hl3 Hin) as (k0 & z0 & [= <-] & Hz0 & Hin0).
    exact (Hpost _ _ Hin0 Hz0). }
  rewrite Hnone. simpl. now rewrite Z.eqb_refl.
Qed.
End NormalizerOrder.

(** X11. The normalizer returns exactly when [int()] accepts every key
    of every bucket other than the group table; otherwise it raises
    [ValueError] for the first key it refuses, buckets taken in the
    order of the dict and keys in the order of their bucket. *)
Theorem normalize_first_malformed_key
        {V : Type} (raw : Dict.t string (Dict.t key V)) :
  match find (fun k => negb (parses k)) (converted_keys raw) with
  | Some k => exists s, k = KStr s /\
                        convert_raw_data_to_mesh_data raw = Raise (ValueError s)
  | None => exists out, convert_raw_data_to_mesh_data raw = Ok out
  end.
Proof. apply (normalize_entries_first raw Dict.empty). Qed.

(** X12. The normalizer never reads a bucket named "groups" in any
    letter case: with these buckets removed from the input, or their
    contents replaced, it gives the same result; in particular a
    malformed key in the group table raises nothing. *)
Theorem normalize_never_reads_groups
        {V : Type} (raw : Dict.t string (Dict.t key V)) :
  convert_raw_data_to_mesh_data (filter (fun nb => not_groups (fst nb)) raw) =
    convert_raw_data_to_mesh_data raw /\
  forall g : Dict.t key V -> Dict.t key V,
    convert_raw_data_to_mesh_data
      (map (fun nb => if not_groups (fst nb) then nb else (fst nb, g (snd nb))) raw) =
    convert_raw_data_to_mesh_data raw.
Proof.
  unfold convert_raw_data_to_mesh_data, Dict.items. split.
  - apply normalize_entries_skips_groups.
  - intros g. rewrite <- (normalize_entries_skips_groups raw).
    rewrite <- (normalize_entries_skips_groups (map _ raw)). f_equal.
    induction raw as [|[name b] raw IH]; [reflexivity|]. simpl.
    destruct (not_groups name) eqn:Hng; simpl; rewrite Hng; [now rewrite IH | exact IH].
Qed.

(** X13. When several keys of a bucket denote the same integer (such as
    "1" and "01"), the normalized bucket has one entry for that integer,
    with the value of the entry that comes last in the input bucket. *)
Theorem normalize_last_key_wins
        {V : Type} (raw out : Dict.t string (Dict.t key V)) name pre post k v z :
  Dict.wf raw ->
  convert_raw_data_to_mesh_data raw = Ok out ->
  lower name <> "groups"%string ->
  Dict.get name raw = Some (pre ++ (k, v) :: post) ->
  py_int k = Ok z ->
  (forall k' v', In (k', v') post -> py_int k' <> Ok z) ->
  exists b', Dict.get name out = Some b' /\ Dict.get (KInt z) b' = Some v.
Proof.
  unfold convert_raw_data_to_mesh_data, Dict.items.
  intros Hwf Hrun Hng Hb Hk Hpost. apply not_groups_true in Hng.
  apply DictFacts.get_Some_In in Hb.
  destruct (@normalize_entries_get _ _ _ _ _ _ Hrun Hwf Hb Hng) as (l & Hl & Hout).
  exists (Dict.of_items l). split; [exact Hout|].
  exact (@int_keyed_last _ _ _ _ _ _ _ Hl Hk Hpost).
Qed.

Lemma normalize_last_key_wins_witness :
  convert_raw_data_to_mesh_data colliding_raw =
    Ok [("Nodes"%string, [(KInt 1, 11); (KInt 7, 70)])] /\
  exists b', Dict.get "Nodes"%string [("Nodes"%string, [(KInt 1, 11); (KInt 7, 70)])] =
             Some b' /\ Dict.get (KInt 1) b' = Some 11.
Proof.
  assert (Hrun : convert_raw_data_to_mesh_data colliding_raw =
                 Ok [("Nodes"%string, [(KInt 1, 11); (KInt 7, 70)])]) by reflexivity.
  split; [exact Hrun|].
  apply (@normalize_last_key_wins nat colliding_raw
           [("Nodes"%string, [(KInt 1, 11); (KInt 7, 70)])] "Nodes"%string
           [(KStr "1", 10); (KStr "7", 70)] [] (KStr "01") 11 1%Z).
  - unfold Dict.wf. simpl. constructor; [simpl; tauto | constructor].
  - exact Hrun.
  - vm_compute. discriminate.
  - reflexivity.
  - reflexivity.
  - intros k' v' [].
Defined.

(* ================================================================= *)
(** ** The converter: which arity is reported *)

Lemma find_map_pair (c : category) (f : category * Z -> bool) (es : list Z) :
  find f (map (pair c) es) = option_map (pair c) (find (fun e => f (c, e)) es).
Proof.
  induction es as [|e es IH]; simpl; [reflexivity|]. now destruct (f (c, e)).
Qed.

(** A loop of the converter raises at its first element whose arity is
    not in the table, and completes when there is none. *)
Lemma analyze_first c femmesh elements : forall st,
  match find (fun e => negb (listed femmesh (c, e))) elements with
  | Some e => analyze (table_of c) femmesh elements st = Raise (KeyError (arity femmesh e))
  | None => exists st', analyze (table_of c) femmesh elements st = Ok st'
  end.
Proof.
  induction elements as [|e rest IH]; intros st; simpl; [eauto|].
  unfold listed at 1, subscript. simpl fst. simpl snd. fold (arity femmesh e).
  destruct (Dict.get (arity femmesh e) (table_of c)) as [l|]; simpl; [|reflexivity].
  apply IH.
Qed.

(** The converter on the first element it cannot file. *)
Lemma convert_cases (femmesh : FemMesh) :
  match find (fun ce => negb (listed femmesh ce)) (visited femmesh) with
  | Some (c, e) =>
      convert_femmesh_to_dict femmesh = Raise (KeyError (arity femmesh e))
  | None => exists r, convert_femmesh_to_dict femmesh = Ok r
  end.
Proof.
  unfold visited, convert_femmesh_to_dict. rewrite !find_app, !find_map_pair.
  pose proof (analyze_first Edge femmesh (Edges femmesh) empty_store) as H1.
  simpl table_of in H1.
  destruct (find (fun e => negb (listed femmesh (Edge, e))) (Edges femmesh)) as [e|];
    simpl; [now rewrite H1|].
  destruct H1 as [st1 ->]. simpl.
  pose proof (analyze_first Face femmesh (Faces femmesh) st1) as H2.
  simpl table_of in H2.
  destruct (find (fun e => negb (listed femmesh (Face, e))) (Faces femmesh)) as [e|];
    simpl; [now rewrite H2|].
  destruct H2 as [st2 ->]. simpl.
  pose proof (analyze_first Volume femmesh (Volumes femmesh) st2) as H3.
  simpl table_of in H3.
  destruct (find (fun e => negb (listed femmesh (Volume, e))) (Volumes femmesh)) as [e|];
    simpl; [now rewrite H3|].
  destruct H3 as [st3 ->]. simpl. eauto.
Qed.

(* ================================================================= *)
(** ** The name of the imported object *)

Lemma string_of_list_ascii_app (a b : list ascii) :
  string_of_list_ascii (a ++ b) =
  (string_of_list_ascii a ++ string_of_list_ascii b)%string.
Proof. induction a as [|c a IH]; simpl; [reflexivity | now rewrite IH]. Qed.

Lemma string_of_chars (s : string) : string_of_list_ascii (chars s) = s.
Proof. apply string_of_list_ascii_of_string. Qed.

(** [root + ext == path] *)
Lemma splitext_join (path : string) :
  (fst (splitext path) ++ snd (splitext path))%string = path.
Proof.
  unfold splitext. cbv zeta.
  destruct ((rfind "/" (chars path) <? rfind "." (chars path))%Z && existsb _ _); simpl.
  - unfold slice_to, slice_from.
    now rewrite <- string_of_list_ascii_app, firstn_skipn, string_of_chars.
  - clear. induction path as [|c path IH]; simpl; [reflexivity | now rewrite IH].
Qed.

Lemma splitext_fst_chars (path : string) (c : ascii) :
  In c (chars (fst (splitext path))) -> In c (chars path).
Proof.
  unfold splitext. cbv zeta.
  destruct ((rfind "/" (chars path) <? rfind "." (chars path))%Z && existsb _ _); simpl.
  - rewrite chars_string_of_list. unfold slice_to. intros Hin.
    rewrite <- (firstn_skipn (Z.to_nat (rfind "." (chars path))) (chars path)).
    apply in_or_app. now left.
  - trivial.
Qed.

Lemma basename_no_slash (path : string) : ~ In "/"%char (chars (basename path)).
Proof.
  unfold basename. cbv zeta. rewrite chars_string_of_list.
  destruct (rfind_cases "/" (chars path)) as [[Hns Hs]|(pre & post & Hp & Hpost & Hs)].
  - rewrite Hs. exact Hns.
  - rewrite Hs, Hp. unfold slice_from. now rewrite skipn_past.
Qed.

(** X15. The name the importer gives the object is the last component
    of the path without its extension: the name followed by the
    extension is the base name of the path, the base name is what
    follows the last slash, and the name holds no slash.  [open] names
    the document the same way. *)
Theorem import_object_name (path : string) :
  (mesh_name path ++ snd (splitext (basename path)))%string = basename path /\
  mesh_name path = fst (splitext (basename path)) /\
  (exists dir, path = (dir ++ basename path)%string) /\
  ~ In "/"%char (chars (basename path)) /\
  ~ In "/"%char (chars (mesh_name path)).
Proof.
  assert (Hbase : snd (split path) = basename path) by reflexivity.
  unfold mesh_name. rewrite Hbase.
  split; [apply splitext_join|]. split; [reflexivity|]. split; [|split].
  - exists (string_of_list_ascii (slice_to (rfind "/" (chars path) + 1) (chars path))).
    unfold basename, slice_to, slice_from. cbv zeta.
    now rewrite <- string_of_list_ascii_app, firstn_skipn, string_of_chars.
  - apply basename_no_slash.
  - intros Hin. apply splitext_fst_chars in Hin. exact (basename_no_slash path Hin).
Qed.

(* ================================================================= *)
(** ** Opening and inserting a file *)

Lemma set_set {K : Type} `{Hashable K} {A : Type} (d : Dict.t K A) (k : K) (v v' : A) :
  Dict.set k v' (Dict.set k v d) = Dict.set k v' d.
Proof.
  induction d as [|[k1 v1] d IH]; simpl.
  - now rewrite DictFacts.eqb_refl.
  - destruct (key_eqb_spec k k1) as [->|Hne]; simpl.
    + now rewrite DictFacts.eqb_refl.
    + rewrite (DictFacts.eqb_neq Hne). now rewrite IH.
Qed.

(** [insert], once the document is there and active. *)
Lemma insert_run has_yaml make_femmesh filename docname app :
  insert has_yaml make_femmesh filename docname app =
  let w := {| console := app_console app;
              files := app_files app;
              ActiveDocument := objects_of docname app |} in
  let w' := fst (import_yaml_json_mesh has_yaml make_femmesh filename w) in
  ({| app_console := console w';
      app_files := files w';
      documents := Dict.set docname (ActiveDocument w') (documents app);
      active := Some docname |},
   snd (import_yaml_json_mesh has_yaml make_femmesh filename w)).
Proof.
  unfold insert, with_document, getDocument, objects_of. cbv zeta.
  destruct (Dict.get docname (documents app)) as [objects|] eqn:Hdoc; simpl.
  - rewrite Hdoc.
    destruct (import_yaml_json_mesh has_yaml make_femmesh filename _); reflexivity.
  - rewrite DictFacts.get_set, DictFacts.eqb_refl.
    destruct (import_yaml_json_mesh has_yaml make_femmesh filename _) as [w' r].
    simpl. now rewrite set_set.
Qed.

(** X16. Whatever the import does, [insert] leaves the named document
    open and active (it is created empty when it did not exist, also
    when the import then raises), writes no file, leaves every other
    document alone, and changes the named document at most by
    appending one object, named after the file, and only when the
    import returns. *)
Theorem insert_effects has_yaml make_femmesh filename docname app :
  let app' := fst (insert has_yaml make_femmesh filename docname app) in
  let r := snd (insert has_yaml make_femmesh filename docname app) in
  active app' = Some docname /\
  app_files app' = app_files app /\
  (forall other, other <> docname ->
                 Dict.get other (documents app') = Dict.get other (documents app)) /\
  exists objects,
    Dict.get docname (documents app') = Some objects /\
    (objects = objects_of docname app \/
     r = Ok tt /\
     exists femmesh,
       objects = objects_of docname app ++ [(mesh_name filename, FemMeshObject femmesh)]).
Proof.
  cbv zeta. rewrite insert_run. cbv zeta. simpl fst. simpl snd.
  destruct (import_effects has_yaml make_femmesh filename
              {| console := app_console app; files := app_files app;
                 ActiveDocument := objects_of docname app |}) as (Hf & _ & Hd & _).
  simpl in Hf, Hd. simpl. split; [reflexivity|]. split; [exact Hf|]. split.
  - intros other Hne. rewrite DictFacts.get_set. now rewrite (DictFacts.eqb_neq Hne).
  - eexists. split; [rewrite DictFacts.get_set; now rewrite DictFacts.eqb_refl|].
    exact Hd.
Qed.

(** X17. Opening a file that the importer can read and from which a
    mesh is built: the document named like the file (base name without
    extension) is active and holds, after what it held before, one new
    FEM mesh object of the same name; the console has the two progress
    messages, the files are untouched. *)
Theorem open_creates_document_and_object
        has_yaml make_femmesh filename app c t raw out femmesh :
  codec_for has_yaml (import_extension filename) = Some c ->
  Dict.get filename (app_files app) = Some t ->
  load c t = Ok raw ->
  convert_raw_data_to_mesh_data raw = Ok out ->
  make_femmesh out = Some femmesh ->
  open has_yaml make_femmesh filename app =
  ({| app_console := app_console app ++ [converting; PrintMessage ("OK" ++ newline)];
      app_files := app_files app;
      documents :=
        Dict.set (mesh_name filename)
          (objects_of (mesh_name filename) app
           ++ [(mesh_name filename, FemMeshObject femmesh)])
          (documents app);
      active := Some (mesh_name filename) |},
   Ok tt).
Proof.
  intros Hc Hfile Hload Hnorm Hbuilt.
  unfold open. change (fst (splitext (basename filename))) with (mesh_name filename).
  rewrite insert_run. cbv zeta. rewrite import_dispatch, Hc.
  unfold import_with. simpl files. rewrite Hfile, Hload, Hnorm, Hbuilt.
  unfold attach, addObject, converted, printed, converting. simpl.
  now rewrite <- app_assoc.
Qed.

Lemma open_creates_document_and_object_witness :
  open true always_builds "dir/mesh.json" scenario_app =
  ({| app_console := [converting; PrintMessage ("OK" ++ newline)];
      app_files := app_files scenario_app;
      documents := [("mesh"%string, [("mesh"%string, FemMeshObject empty_mesh)])];
      active := Some "mesh"%string |},
   Ok tt).
Proof.
  exact (@open_creates_document_and_object true always_builds "dir/mesh.json"
           scenario_app JSON (dump JSON (scenario_A_record 1 2 3))
           scenario_B_raw scenario_B_normalized empty_mesh
           eq_refl eq_refl eq_refl scenario_B_normalizes eq_refl).
Defined.

(* ================================================================= *)
(** ** The converter: what a bucket holds, in which order *)

(** The elements a loop appends to the list [l]. *)
Lemma analyze_Ok_exact table femmesh elements : forall st st',
  analyze table femmesh elements st = Ok st' ->
  forall l,
    st' l =
    st l ++
    map (fun e => (e, getElementNodes femmesh e))
        (filter (fun e => match Dict.get (arity femmesh e) table with
                          | Some l' => elem_list_beq l' l
                          | None => false
                          end) elements).
Proof.
  induction elements as [|e rest IH]; simpl; intros st st' Hrun l.
  - injection Hrun as <-. now rewrite app_nil_r.
  - unfold subscript in Hrun. fold (arity femmesh e) in Hrun.
    destruct (Dict.get (arity femmesh e) table) as [l0|] eqn:Hl0; simpl in Hrun;
      [|discriminate].
    rewrite (IH _ _ Hrun l). unfold append.
    destruct (elem_list_beq l0 l); simpl; [now rewrite <- app_assoc | reflexivity].
Qed.

Lemma table_of_category l :
  Dict.get (arity_of l) (table_of (category_of l)) = Some l.
Proof. destruct l; reflexivity. Qed.

(** The test of a loop for the list [l]: false in the loops of the other
    categories, the arity of [l] in the loop of its own. *)
Lemma loop_test c femmesh l e :
  match Dict.get (arity femmesh e) (table_of c) with
  | Some l' => elem_list_beq l' l
  | None => false
  end =
  if category_eqb c (category_of l) then Nat.eqb (arity femmesh e) (arity_of l) else false.
Proof.
  destruct (Dict.get (arity femmesh e) (table_of c)) as [l'|] eqn:Hl'.
  - destruct (table_of_inv _ _ Hl') as [-> Hn].
    destruct (elem_list_beq l' l) eqn:Hb.
    + apply elem_list_beq_eq in Hb. subst l'. rewrite Hn.
      rewrite Nat.eqb_refl. now destruct l.
    + destruct (category_eqb (category_of l') (category_of l)) eqn:Hc; [|reflexivity].
      destruct (Nat.eqb_spec (arity femmesh e) (arity_of l)) as [Heq|]; [|reflexivity].
      exfalso. rewrite Hn in Heq.
      assert (l' = l); [|subst; destruct l; discriminate].
      destruct l', l; simpl in Hc, Heq; congruence.
  - destruct (category_eqb c (category_of l)) eqn:Hc; [|reflexivity].
    destruct (Nat.eqb_spec (arity femmesh e) (arity_of l)) as [Heq|]; [|reflexivity].
    exfalso.
    assert (c = category_of l) by (destruct c, l; simpl in Hc |- *; congruence).
    subst c. rewrite Heq, table_of_category in Hl'. discriminate.
Qed.

Lemma filter_loop c femmesh l (es : list Z) :
  filter (fun e => match Dict.get (arity femmesh e) (table_of c) with
                   | Some l' => elem_list_beq l' l
                   | None => false
                   end) es =
  if category_eqb c (category_of l)
  then filter (fun e => Nat.eqb (arity femmesh e) (arity_of l)) es
  else [].
Proof.
  rewrite (filter_ext _ _ (loop_test c femmesh l)).
  destruct (category_eqb c (category_of l)); [reflexivity|].
  induction es; [reflexivity | exact IHes].
Qed.

(** X18. When the converter returns and the elements of a category have
    pairwise distinct ids, each bucket of that category holds exactly
    the elements of the bucket's arity, as id -> node tuple, in the
    order in which the mesh lists them. *)
Theorem convert_bucket_contents femmesh r (l : elem_list) :
  convert_femmesh_to_dict femmesh = Ok r ->
  NoDup (elements_of (category_of l) femmesh) ->
  Dict.get (bucket_name l) r =
  Some (map (fun e => (KInt e, int_tuple (getElementNodes femmesh e)))
            (filter (fun e => Nat.eqb (arity femmesh e) (arity_of l))
                    (elements_of (category_of l) femmesh))).
Proof.
  unfold convert_femmesh_to_dict. intros Hrun Hnd.
  destruct (analyze len_to_edge femmesh (Edges femmesh) empty_store) as [st1|] eqn:H1;
    simpl in Hrun; [|discriminate].
  destruct (analyze len_to_face femmesh (Faces femmesh) st1) as [st2|] eqn:H2;
    simpl in Hrun; [|discriminate].
  destruct (analyze len_to_volume femmesh (Volumes femmesh) st2) as [st3|] eqn:H3;
    simpl in Hrun; [|discriminate].
  injection Hrun as <-.
  change (Dict.of_items _) with (record_of femmesh st3). rewrite get_bucket. f_equal.
  assert (Hst : st3 l = map (fun e => (e, getElementNodes femmesh e))
                           (filter (fun e => Nat.eqb (arity femmesh e) (arity_of l))
                                   (elements_of (category_of l) femmesh))).
  { rewrite (analyze_Ok_exact _ _ _ _ H3 l), (analyze_Ok_exact _ _ _ _ H2 l),
      (analyze_Ok_exact _ _ _ _ H1 l).
    rewrite (filter_loop Edge), (filter_loop Face), (filter_loop Volume).
    unfold empty_store. destruct l; simpl; now rewrite ?app_nil_r. }
  unfold elem_dict. rewrite Hst, map_map. simpl.
  apply DictFacts.of_items_wf. unfold Dict.wf, Dict.keys. rewrite map_map. simpl.
  apply NoDup_map_KInt, NoDup_filter. exact Hnd.
Qed.

Lemma convert_bucket_contents_witness :
  convert_femmesh_to_dict (scenario_A 1 2 3) = Ok (scenario_A_record 1 2 3) /\
  NoDup (elements_of (category_of tet4) (scenario_A 1 2 3)) /\
  Dict.get (bucket_name tet4) (scenario_A_record 1 2 3) =
  Some (map (fun e => (KInt e, int_tuple (getElementNodes (scenario_A 1 2 3) e)))
            (filter (fun e => Nat.eqb (arity (scenario_A 1 2 3) e) (arity_of tet4))
                    (elements_of (category_of tet4) (scenario_A 1 2 3)))).
Proof.
  assert (Hnd : NoDup (elements_of (category_of tet4) (scenario_A 1 2 3))).
  { simpl. constructor; [simpl; tauto | constructor]. }
  split; [exact scenario_A_converts_123|]. split; [exact Hnd|].
  exact (@convert_bucket_contents _ _ tet4 scenario_A_converts_123 Hnd).
Defined.

(* ================================================================= *)
(** ** The YAML flag *)

(** X19. The flag that tells whether the YAML library was found matters
    only for [.yaml] and [.yml] paths: on every other path the exporter
    and the importer behave the same with and without it. *)
Theorem yaml_flag_matters_only_for_yaml
        (has_yaml has_yaml' : bool) make_femmesh objectslist path w :
  (~ yaml_extension (export_extension path) ->
   export has_yaml objectslist path w = export has_yaml' objectslist path w) /\
  (~ yaml_extension (import_extension path) ->
   import_yaml_json_mesh has_yaml make_femmesh path w =
   import_yaml_json_mesh has_yaml' make_femmesh path w).
Proof.
  assert (Hcodec : forall ext, ~ yaml_extension ext ->
            codec_for has_yaml ext = codec_for has_yaml' ext).
  { intros ext Hn. unfold codec_for, yaml_extension in *.
    destruct (String.eqb_spec ext ".json"); [reflexivity|].
    destruct (String.eqb_spec ext ".yaml"); [tauto|].
    destruct (String.eqb_spec ext ".yml"); [tauto|]. reflexivity. }
  split; intros Hn.
  - destruct (selection_cases objectslist) as [[femmesh ->]|Hsel].
    + now rewrite !export_mesh_object, (Hcodec _ Hn).
    + destruct objectslist as [|[femmesh|] [|obj' rest]]; try reflexivity.
      destruct (Hsel femmesh eq_refl).
  - now rewrite !import_dispatch, (Hcodec _ Hn).
Qed.

(* ================================================================= *)
(** ** The first unsupported element *)

(** X14. The converter visits the edges, then the faces, then the
    volumes, each in the order of the mesh: it raises [KeyError] with
    the arity of the first element whose arity is not in the table of
    its category, and returns a dict exactly when there is no such
    element. *)
Theorem convert_first_unsupported (femmesh : FemMesh) :
  match find (fun ce => negb (listed femmesh ce)) (visited femmesh) with
  | Some (c, e) =>
      convert_femmesh_to_dict femmesh = Raise (KeyError (arity femmesh e))
  | None => exists r, convert_femmesh_to_dict femmesh = Ok r
  end.
Proof. exact (convert_cases femmesh). Qed.

Lemma In_visited femmesh c e :
  In (c, e) (visited femmesh) <-> In e (elements_of c femmesh).
Proof.
  unfold visited. rewrite !in_app_iff, !in_map_iff. split.
  - intros [(e' & [= <- <-] & Hin)|[(e' & [= <- <-] & Hin)|(e' & [= <- <-] & Hin)]];
      exact Hin.
  - intros Hin. destruct c; simpl in Hin; [left | right; left | right; right];
      now exists e.
Qed.

Lemma listed_false femmesh c e :
  listed femmesh (c, e) = false <-> bucket_for c (arity femmesh e) = None.
Proof.
  unfold listed. simpl. rewrite <- table_of_None.
  destruct (Dict.get (arity femmesh e) (table_of c)); split; congruence.
Qed.

Lemma convert_unsupported femmesh :
  (exists c el, unsupported_element femmesh c el) ->
  exists c el, unsupported_element femmesh c el /\
               convert_femmesh_to_dict femmesh = Raise (KeyError (arity femmesh el)).
Proof.
  intros (c0 & e0 & Hin0 & Hnone0). pose proof (convert_cases femmesh) as Hcases.
  destruct (find (fun ce => negb (listed femmesh ce)) (visited femmesh))
    as [[c e]|] eqn:Hfind.
  - apply find_some in Hfind as [Hin Hneg]. exists c, e. split; [|exact Hcases].
    split; [now apply In_visited|]. apply listed_false.
    now destruct (listed femmesh (c, e)).
  - exfalso. apply In_visited in Hin0.
    pose proof (find_none _ _ Hfind (c0, e0) Hin0) as Hl. cbv beta in Hl.
    apply listed_false in Hnone0. rewrite Hnone0 in Hl. discriminate.
Qed.

(** X4. When the mesh of the one FEM mesh object has an element whose
    arity is not listed for its category, the exporter raises the
    converter's [KeyError] before it opens the file: whatever the path,
    nothing is written (a file already at that path keeps its
    contents), nothing is printed. *)
Theorem export_failed_conversion_writes_nothing has_yaml femmesh path w :
  (exists c el, unsupported_element femmesh c el) ->
  exists c el,
    unsupported_element femmesh c el /\
    export has_yaml [FemMeshObject femmesh] path w =
    (w, Raise (KeyError (arity femmesh el))).
Proof.
  intros Hbad. destruct (convert_unsupported Hbad) as (c & el & Hel & Hr).
  exists c, el. split; [exact Hel|]. now rewrite export_mesh_object, Hr.
Qed.

Lemma export_failed_conversion_writes_nothing_witness :
  (exists c el, unsupported_element scenario_E c el) /\
  exists c el,
    unsupported_element scenario_E c el /\
    export true [FemMeshObject scenario_E] "m.json" malformed_world =
    (malformed_world, Raise (KeyError (arity scenario_E el))).
Proof.
  split; [exact scenario_E_unsupported|].
  exact (@export_failed_conversion_writes_nothing true scenario_E "m.json"
           malformed_world scenario_E_unsupported).
Defined.

Lemma yaml_flag_matters_only_for_yaml_witness :
  ~ yaml_extension (export_extension "dir/mesh.json") /\
  export true [FemMeshObject (scenario_A 1 2 3)] "dir/mesh.json" empty_world =
  export false [FemMeshObject (scenario_A 1 2 3)] "dir/mesh.json" empty_world.
Proof.
  assert (Hn : ~ yaml_extension (export_extension "dir/mesh.json")).
  { intros [H|H]; vm_compute in H; discriminate. }
  split; [exact Hn|].
  exact (proj1 (@yaml_flag_matters_only_for_yaml true false always_builds
                  [FemMeshObject (scenario_A 1 2 3)] "dir/mesh.json" empty_world) Hn).
Defined.
